(** * InDesign-to-PDF conversion backend: a shallow embedding

    The development embeds the orchestration core of the backend
    (services/zipHandler.js, services/indesignService.js,
    utils/fileCleanup.js, config/config.js) and proves properties of it.

    Modelling conventions.
    - A JavaScript string is a [string]: a sequence of code units, here
      restricted to code units below 256.  The string primitives
      ([includes], [split], [trim], [toLowerCase], ...) are exact on that
      fragment.
    - The [path] module is modelled by its POSIX flavour.
    - A thrown [Error] is a record of its [message] and optional [code].
    - The file system is a finite map from paths to nodes; an [async]
      function is a state transformer over it whose result is a normal
      return, a throw, or a promise that never settles. *)

From stdpp Require Import gmap strings list.
From Stdlib Require Import ZArith Ascii String DecimalString Lia.

Local Open Scope string_scope.
Local Open Scope Z_scope.

(** ** JavaScript strings *)

Module JS.

Definition quote : ascii := "034"%char.
Definition newline : ascii := "010"%char.
Definition backslash : ascii := "092"%char.
Definition slash : ascii := "/"%char.
Definition dot : ascii := "."%char.

Definition chr (c : ascii) : string := String c EmptyString.

(** [s.startsWith(p)] *)
Definition startsWith (p s : string) : bool := String.prefix p s.

(** [s.includes(needle)] *)
Fixpoint includes (needle s : string) : bool :=
  if String.prefix needle s then true
  else match s with
       | EmptyString => false
       | String _ s' => includes needle s'
       end.

(** [s.split(sep)] for a one-character separator. *)
Fixpoint split (sep : ascii) (s : string) : list string :=
  match s with
  | EmptyString => [EmptyString]
  | String c s' =>
      if Ascii.eqb c sep then EmptyString :: split sep s'
      else match split sep s' with
           | h :: t => String c h :: t
           | [] => [chr c]
           end
  end.

(** [l.join(sep)] *)
Fixpoint join (sep : string) (l : list string) : string :=
  match l with
  | [] => EmptyString
  | [x] => x
  | x :: rest => x +:+ sep +:+ join sep rest
  end.

(** White space and line terminators of ECMAScript among the code
    units below 256: TAB, LF, VT, FF, CR, SP and NBSP. *)
Definition isWhiteSpace (c : ascii) : bool :=
  let n := nat_of_ascii c in
  ((9 <=? n)%nat && (n <=? 13)%nat) || (n =? 32)%nat || (n =? 160)%nat.

Fixpoint trimStart (s : string) : string :=
  match s with
  | EmptyString => EmptyString
  | String c s' => if isWhiteSpace c then trimStart s' else s
  end.

Fixpoint trimEnd (s : string) : string :=
  match s with
  | EmptyString => EmptyString
  | String c s' =>
      match trimEnd s' with
      | EmptyString => if isWhiteSpace c then EmptyString else chr c
      | t => String c t
      end
  end.

(** [s.trim()] *)
Definition trim (s : string) : string := trimEnd (trimStart s).

(** Lower-casing of one code unit below 256: A-Z and the Latin-1
    capitals U+00C0-U+00DE other than the multiplication sign. *)
Definition lowerChar (c : ascii) : ascii :=
  let n := nat_of_ascii c in
  if ((65 <=? n)%nat && (n <=? 90)%nat)
     || ((192 <=? n)%nat && (n <=? 222)%nat && negb (n =? 215)%nat)
  then ascii_of_nat (n + 32) else c.

(** [s.toLowerCase()] *)
Fixpoint toLowerCase (s : string) : string :=
  match s with
  | EmptyString => EmptyString
  | String c s' => String (lowerChar c) (toLowerCase s')
  end.

(** [s.replace(/\\/g, "/")]: every backslash becomes a forward slash. *)
Fixpoint replaceBackslashes (s : string) : string :=
  match s with
  | EmptyString => EmptyString
  | String c s' =>
      String (if Ascii.eqb c backslash then slash else c)
             (replaceBackslashes s')
  end.

(** [s.replace(pat, by)] with a string pattern: the first occurrence
    only; the string is returned unchanged when there is none. *)
Fixpoint replaceFirst (pat by_ s : string) : string :=
  if String.prefix pat s
  then by_ +:+ String.substring (String.length pat)
                                (String.length s - String.length pat) s
  else match s with
       | EmptyString => EmptyString
       | String c s' => String c (replaceFirst pat by_ s')
       end.

(** [s.slice(from, to)] for indices inside the string. *)
Definition slice (from to : Z) (s : string) : string :=
  String.substring (Z.to_nat from) (Z.to_nat (to - from)) s.

(** Truthiness of a string: the empty string is falsy. *)
Definition truthy (s : string) : bool := negb (String.eqb s EmptyString).

(** Template-literal rendering of a number. *)
Definition numberToString (z : Z) : string :=
  NilZero.string_of_int (Z.to_int z).

End JS.


(** ** The [path] module (POSIX flavour) *)

Module Path.

(** State of the backward scan of [path.extname]. *)
Record ext_state := ExtState {
  startDot : Z;
  startPart : Z;
  end_ : Z;
  matchedSlash : bool;
  preDotState : Z
}.

(** The loop [for (i = path.length - 1; i >= 0; --i)] of [extname],
    over the characters of the path in reverse. *)
Fixpoint extname_loop (rchars : list ascii) (i : Z) (st : ext_state)
  : ext_state :=
  match rchars with
  | [] => st
  | code :: rest =>
      if Ascii.eqb code JS.slash then
        if negb (matchedSlash st)
        then ExtState (startDot st) (i + 1) (end_ st) (matchedSlash st)
                      (preDotState st)
        else extname_loop rest (i - 1) st
      else
        let st1 :=
          if end_ st =? -1
          then ExtState (startDot st) (startPart st) (i + 1) false
                        (preDotState st)
          else st in
        let st2 :=
          if Ascii.eqb code JS.dot then
            if startDot st1 =? -1
            then ExtState i (startPart st1) (end_ st1) (matchedSlash st1)
                          (preDotState st1)
            else if negb (preDotState st1 =? 1)
            then ExtState (startDot st1) (startPart st1) (end_ st1)
                          (matchedSlash st1) 1
            else st1
          else if negb (startDot st1 =? -1)
          then ExtState (startDot st1) (startPart st1) (end_ st1)
                        (matchedSlash st1) (-1)
          else st1 in
        extname_loop rest (i - 1) st2
  end.

(** [path.extname(p)] *)
Definition extname (p : string) : string :=
  let st := extname_loop (rev (list_ascii_of_string p))
                         (Z.of_nat (String.length p) - 1)
                         (ExtState (-1) 0 (-1) true 0) in
  if (startDot st =? -1) || (end_ st =? -1) || (preDotState st =? 0)
     || ((preDotState st =? 1) && (startDot st =? end_ st - 1)
         && (startDot st =? startPart st + 1))
  then EmptyString
  else JS.slice (startDot st) (end_ st) p.

(** State of the backward scan of [path.basename] with a suffix. *)
Record base_state := BaseState {
  b_start : Z;
  b_end : Z;
  b_matchedSlash : bool;
  b_extIdx : Z;
  b_firstNonSlashEnd : Z
}.

Definition charAt (i : Z) (s : string) : option ascii :=
  String.get (Z.to_nat i) s.

Fixpoint basename_suffix_loop (suffix : string) (rchars : list ascii)
  (i : Z) (st : base_state) : base_state :=
  match rchars with
  | [] => st
  | code :: rest =>
      if Ascii.eqb code JS.slash then
        if negb (b_matchedSlash st)
        then BaseState (i + 1) (b_end st) (b_matchedSlash st) (b_extIdx st)
                       (b_firstNonSlashEnd st)
        else basename_suffix_loop suffix rest (i - 1) st
      else
        let st1 :=
          if b_firstNonSlashEnd st =? -1
          then BaseState (b_start st) (b_end st) false (b_extIdx st) (i + 1)
          else st in
        let st2 :=
          if 0 <=? b_extIdx st1 then
            if bool_decide (Some code = charAt (b_extIdx st1) suffix) then
              let extIdx := b_extIdx st1 - 1 in
              BaseState (b_start st1)
                        (if extIdx =? -1 then i else b_end st1)
                        (b_matchedSlash st1) extIdx
                        (b_firstNonSlashEnd st1)
            else
              BaseState (b_start st1) (b_firstNonSlashEnd st1)
                        (b_matchedSlash st1) (-1) (b_firstNonSlashEnd st1)
          else st1 in
        basename_suffix_loop suffix rest (i - 1) st2
  end.

(** The scan of [path.basename] without a usable suffix; the state is
    [(start, end, matchedSlash)]. *)
Fixpoint basename_plain_loop (rchars : list ascii) (i : Z)
  (st : Z * Z * bool) : Z * Z * bool :=
  match rchars with
  | [] => st
  | code :: rest =>
      let '(start, end', matched) := st in
      if Ascii.eqb code JS.slash then
        if negb matched then (i + 1, end', matched)
        else basename_plain_loop rest (i - 1) st
      else if end' =? -1
      then basename_plain_loop rest (i - 1) (start, i + 1, false)
      else basename_plain_loop rest (i - 1) st
  end.

(** [path.basename(p, suffix)] *)
Definition basename (p suffix : string) : string :=
  let rchars := rev (list_ascii_of_string p) in
  let last := Z.of_nat (String.length p) - 1 in
  if (0 <? String.length suffix)%nat
     && (String.length suffix <=? String.length p)%nat
  then
    if String.eqb suffix p then EmptyString
    else
      let st := basename_suffix_loop suffix rchars last
                  (BaseState 0 (-1) true
                             (Z.of_nat (String.length suffix) - 1) (-1)) in
      let end' :=
        if b_start st =? b_end st then b_firstNonSlashEnd st
        else if b_end st =? -1 then Z.of_nat (String.length p)
        else b_end st in
      JS.slice (b_start st) end' p
  else
    let '(start, end', _) := basename_plain_loop rchars last (0, -1, true) in
    if end' =? -1 then EmptyString else JS.slice start end' p.

(** [normalizeString]: the segments between separators are folded
    onto a stack: empty segments and [.] are dropped, [..] pops the
    last segment unless the stack is empty or already ends in [..],
    in which case it is kept only when the path is relative. *)
Fixpoint normalizeSegments (allowAboveRoot : bool) (stack segs : list string)
  : list string :=
  match segs with
  | [] => rev stack
  | seg :: rest =>
      if String.eqb seg EmptyString || String.eqb seg "."
      then normalizeSegments allowAboveRoot stack rest
      else if String.eqb seg ".." then
        match stack with
        | top :: below =>
            if String.eqb top ".."
            then normalizeSegments allowAboveRoot
                   (if allowAboveRoot then seg :: stack else stack) rest
            else normalizeSegments allowAboveRoot below rest
        | [] =>
            normalizeSegments allowAboveRoot
              (if allowAboveRoot then [seg] else []) rest
        end
      else normalizeSegments allowAboveRoot (seg :: stack) rest
  end.

Definition normalizeString (p : string) (allowAboveRoot : bool) : string :=
  JS.join "/" (normalizeSegments allowAboveRoot [] (JS.split JS.slash p)).

Definition lastChar (s : string) : option ascii :=
  match String.length s with
  | O => None
  | S n => String.get n s
  end.

(** [path.normalize(p)] *)
Definition normalize (p : string) : string :=
  if String.eqb p EmptyString then "."
  else
    let isAbsolute := JS.startsWith "/" p in
    let trailingSeparator := bool_decide (lastChar p = Some JS.slash) in
    let body := normalizeString p (negb isAbsolute) in
    if String.eqb body EmptyString then
      if isAbsolute then "/" else if trailingSeparator then "./" else "."
    else
      let body' := if trailingSeparator then body +:+ "/" else body in
      if isAbsolute then "/" +:+ body' else body'.

(** [path.join(...args)] *)
Definition joinAll (args : list string) : string :=
  match filter (fun a => a <> EmptyString) args with
  | [] => "."
  | parts => normalize (JS.join "/" parts)
  end.

(** [path.join(a, b)] *)
Definition join (a b : string) : string := joinAll [a; b].

End Path.

(** ** Errors and synchronous results *)

(** A thrown [Error]: its [message] and, for file-system errors, its
    [code] property. *)
Record Error := mkError { code : option string; message : string }.

(** [new Error(msg)] *)
Definition newError (msg : string) : Error := mkError None msg.

(** A system error raised by [fs]: [code: syscall] and the path. *)
Definition fsError (c description syscall p : string) : Error :=
  mkError (Some c)
          (c +:+ ": " +:+ description +:+ ", " +:+ syscall +:+ " '" +:+ p
             +:+ "'").

Inductive result (A : Type) : Type :=
| Ok (a : A)
| Err (e : Error).
Arguments Ok {A} a.
Arguments Err {A} e.

(** ** The file system and [async] functions *)

Module Fs.

Inductive node :=
| RegularFile (content : string)
| Dir.

(** The file system: which paths exist, and what they hold. *)
Abbreviation t := (gmap string node).

Definition isDirectory (n : node) : bool :=
  match n with Dir => true | RegularFile _ => false end.

(** [k] lies strictly below directory [p]. *)
Definition below (p k : string) : bool := String.prefix (p +:+ "/") k.

End Fs.

(** Completion of an awaited [async] call started in some file-system
    state: it returns, it throws, or its promise never settles. *)
Inductive completion (A : Type) : Type :=
| Return (a : A) (s : Fs.t)
| Throw (e : Error) (s : Fs.t)
| Pending.
Arguments Return {A} a s.
Arguments Throw {A} e s.
Arguments Pending {A}.

Definition Async (A : Type) : Type := Fs.t -> completion A.

Definition ret {A} (a : A) : Async A := fun s => Return a s.

Definition throw {A} (e : Error) : Async A := fun s => Throw e s.

Definition bind {A B} (m : Async A) (k : A -> Async B) : Async B :=
  fun s =>
    match m s with
    | Return a s' => k a s'
    | Throw e s' => Throw e s'
    | Pending => Pending
    end.

(** [try { m } catch (error) { handler }] *)
Definition tryCatch {A} (m : Async A) (handler : Error -> Async A) : Async A :=
  fun s =>
    match m s with
    | Return a s' => Return a s'
    | Throw e s' => handler e s'
    | Pending => Pending
    end.

(** [await m.catch(() => {})] *)
Definition ignoreErrors (m : Async unit) : Async unit :=
  tryCatch m (fun _ => ret tt).

Declare Scope async_scope.
Delimit Scope async_scope with async.
Notation "'let*' x ':=' m 'in' k" := (bind m (fun x => k))
  (at level 10, x name, m at level 100, k at level 200) : async_scope.
Notation "'await' m 'in' k" := (bind m (fun _ => k))
  (at level 10, m at level 100, k at level 200) : async_scope.
Local Open Scope async_scope.

Module FsPromises.

(** [fs.access(p)] *)
Definition access (p : string) : Async unit :=
  fun s =>
    match s !! p with
    | Some _ => Return tt s
    | None =>
        Throw (fsError "ENOENT" "no such file or directory" "access" p) s
    end.

(** [fs.stat(p)] *)
Definition stat (p : string) : Async Fs.node :=
  fun s =>
    match s !! p with
    | Some n => Return n s
    | None =>
        Throw (fsError "ENOENT" "no such file or directory" "stat" p) s
    end.

(** [fs.unlink(p)] *)
Definition unlink (p : string) : Async unit :=
  fun s =>
    match s !! p with
    | Some (Fs.RegularFile _) => Return tt (delete p s)
    | Some Fs.Dir =>
        Throw (fsError "EPERM" "operation not permitted" "unlink" p) s
    | None =>
        Throw (fsError "ENOENT" "no such file or directory" "unlink" p) s
    end.

(** [fs.rm(p, { recursive: true, force: true })]: the path and all
    that lies below it are removed; an absent path is not an error. *)
Definition rm (p : string) : Async unit :=
  fun s =>
    Return tt
      (filter (fun kv => negb (String.eqb kv.1 p || Fs.below p kv.1)) s).

(** [fs.writeFile(p, data, "utf8")] *)
Definition writeFile (p data : string) : Async unit :=
  fun s =>
    match s !! p with
    | Some Fs.Dir =>
        Throw (fsError "EISDIR" "illegal operation on a directory" "open" p)
              s
    | _ => Return tt (<[p := Fs.RegularFile data]> s)
    end.

(** [fs.mkdir(p, { recursive: true })] *)
Definition mkdir (p : string) : Async unit :=
  fun s =>
    match s !! p with
    | Some (Fs.RegularFile _) =>
        Throw (fsError "EEXIST" "file already exists" "mkdir" p) s
    | Some Fs.Dir => Return tt s
    | None => Return tt (<[p := Fs.Dir]> s)
    end.

End FsPromises.

(** ** utils/fileCleanup.js *)

(** [deleteFile(targetPath)].  Every error is caught; one whose code is
    not [ENOENT] is reported on the console, which is not modelled. *)
Definition deleteFile (targetPath : string) : Async unit :=
  tryCatch
    (let* stats := FsPromises.stat targetPath in
     if Fs.isDirectory stats
     then FsPromises.rm targetPath
     else FsPromises.unlink targetPath)
    (fun error =>
       if negb (bool_decide (code error = Some "ENOENT"))
       then ret tt
       else ret tt).

(** ** services/zipHandler.js *)

(** An extracted directory tree as [fs.readdir(dir, { withFileTypes:
    true })] enumerates it: the entries of a directory come in the
    order of the enumeration.  [OtherEntry] is an entry for which both
    [isDirectory()] and [isFile()] are false (a symbolic link, a socket);
    [UnreadableDirEntry] is a directory whose enumeration is rejected. *)
#[warnings="-register-all"]
Inductive entry :=
| FileEntry (name : string)
| DirEntry (name : string) (entries : list entry)
| UnreadableDirEntry (name : string) (error : Error)
| OtherEntry (name : string).

Definition entryName (e : entry) : string :=
  match e with
  | FileEntry n | DirEntry n _ | UnreadableDirEntry n _ | OtherEntry n => n
  end.

(** The test on a directory name: [entry.name.startsWith('.') ||
    entry.name === '__MACOSX']. *)
Definition isSystemDirectory (name : string) : bool :=
  JS.startsWith "." name || String.eqb name "__MACOSX".

(** The test on a file name: the lower-cased [path.extname] is [.indd]
    or [.idml]. *)
Definition hasInDesignExtension (name : string) : bool :=
  let ext := JS.toLowerCase (Path.extname name) in
  String.eqb ext ".indd" || String.eqb ext ".idml".

(** The [catch] of [findInDesignFile]. *)
Definition searchError (error : Error) : Error :=
  newError ("Error searching for InDesign file: " +:+ message error).

(** One iteration of the [for] loop of [findInDesignFile(dirPath)] on
    [entry]: [Ok (Some p)] is [return p], [Ok None] falls through to the
    next iteration, [Err e] is a throw inside the [try] block.  The
    recursive call [findInDesignFile(fullPath)] is the inner loop
    followed by its own [catch]. *)
Fixpoint visitEntry (dirPath : string) (e : entry) : result (option string) :=
  let fullPath := Path.join dirPath (entryName e) in
  match e with
  | DirEntry name entries =>
      if isSystemDirectory name then Ok None
      else
        let found :=
          match
            (fix loop (es : list entry) : result (option string) :=
               match es with
               | [] => Ok None
               | x :: rest =>
                   match visitEntry fullPath x with
                   | Ok (Some p) => Ok (Some p)
                   | Ok None => loop rest
                   | Err err => Err err
                   end
               end) entries
          with
          | Ok r => Ok r
          | Err err => Err (searchError err)
          end in
        match found with
        | Ok (Some p) => if JS.truthy p then Ok (Some p) else Ok None
        | Ok None => Ok None
        | Err err => Err err
        end
  | UnreadableDirEntry name error =>
      if isSystemDirectory name then Ok None
      else Err (searchError error)
  | FileEntry name =>
      if hasInDesignExtension name then Ok (Some fullPath) else Ok None
  | OtherEntry _ => Ok None
  end.

(** The [for (const entry of entries)] loop followed by [return null]. *)
Fixpoint scanEntries (dirPath : string) (es : list entry)
  : result (option string) :=
  match es with
  | [] => Ok None
  | x :: rest =>
      match visitEntry dirPath x with
      | Ok (Some p) => Ok (Some p)
      | Ok None => scanEntries dirPath rest
      | Err err => Err err
      end
  end.

(** [findInDesignFile(dirPath)], given what [fs.readdir(dirPath)]
    yields: a rejection or the entries. *)
Definition findInDesignFile (dirPath : string) (readdir : Error + list entry)
  : result (option string) :=
  match readdir with
  | inl error => Err (searchError error)
  | inr entries =>
      match scanEntries dirPath entries with
      | Ok r => Ok r
      | Err err => Err (searchError err)
      end
  end.

(** What [new AdmZip(zipPath)] and [zip.extractAllTo(extractPath, true)]
    do: they throw, or they leave a directory at [extractPath]. *)
Inductive extraction :=
| ExtractionFails (error : Error)
| Extracted (readdir : Error + list entry).

Record located := mkLocated { indesignFile : string; extractedPath : string }.

Definition notFoundError : Error :=
  newError "No InDesign file (.indd or .idml) found in the zip".

(** The [catch] of [extractZipAndFindInDesignFile]. *)
Definition extractionCatch (error : Error) : result located :=
  if JS.includes "No InDesign file" (message error)
  then Err error
  else Err (newError ("Failed to extract zip file: " +:+ message error)).

(** The [try] block of [extractZipAndFindInDesignFile]. *)
Definition extractionTry (zip : extraction) (extractPath : string)
  : result located :=
  match zip with
  | ExtractionFails error => Err error
  | Extracted readdir =>
      match findInDesignFile extractPath readdir with
      | Err error => Err error
      | Ok found =>
          match found with
          | Some p =>
              if JS.truthy p then Ok (mkLocated p extractPath)
              else Err notFoundError
          | None => Err notFoundError
          end
      end
  end.

(** [extractZipAndFindInDesignFile(zipPath, extractPath)] *)
Definition extractZipAndFindInDesignFile (zip : extraction)
  (extractPath : string) : result located :=
  match extractionTry zip extractPath with
  | Ok r => Ok r
  | Err error => extractionCatch error
  end.

(** ** config/config.js *)

(** [process.env.INDESIGN_APP_PATH || null] *)
Definition configIndesignAppPath (envVar : option string) : option string :=
  match envVar with
  | Some v => if JS.truthy v then Some v else None
  | None => None
  end.

(** ** services/indesignService.js: the spawned process *)

Module Runner.

Inductive signal := SIGTERM | SIGKILL.

(** The promise returned by [runInDesignWithScript]. *)
Inductive promise :=
| Unsettled
| Resolved (value : string)
| Rejected (reason : Error).

(** What the child process handle emits. [Exit] is the end of the
    operating-system process; [Close] follows it once the streams are
    closed and carries the exit code ([None] for [null]: the process
    was ended by a signal). *)
Inductive childEvent :=
| StdoutData (data : string)
| StderrData (data : string)
| ErrorEvent (error : Error)
| Exit
| Close (exitCode : option Z).

(** The closure state of the promise executor after [spawn].
    [timeout] and [graceTimer] hold the deadline of the two
    [setTimeout] timers while they are pending. [alive] tells whether
    a signal can still be delivered to the process; [killed] is
    [childProcess.killed], which Node sets once [kill()] has delivered
    a signal, whether or not the process has ended. *)
Record state := mkState {
  stdout : string;
  stderr : string;
  isResolved : bool;
  outcome : promise;
  timeout : option Z;
  graceTimer : option Z;
  alive : bool;
  killed : bool;
  signals : list signal
}.

Definition timeoutMs : Z := 5 * 60 * 1000.
Definition graceMs : Z := 5000.

Definition start (spawned : bool) : state :=
  mkState EmptyString EmptyString false Unsettled (Some timeoutMs) None spawned false [].

Definition settle (p : promise) (st : state) : state :=
  match outcome st with
  | Unsettled =>
      mkState (stdout st) (stderr st) (isResolved st) p (timeout st)
              (graceTimer st) (alive st) (killed st) (signals st)
  | _ => st
  end.

Definition resolve (value : string) : state -> state :=
  settle (Resolved value).

Definition reject (reason : Error) : state -> state :=
  settle (Rejected reason).

(** [childProcess.kill(sig)] *)
Definition kill (sig : signal) (st : state) : state :=
  if alive st
  then mkState (stdout st) (stderr st) (isResolved st) (outcome st)
               (timeout st) (graceTimer st) (alive st) true
               (signals st ++ [sig])
  else st.

Definition setResolved (st : state) : state :=
  mkState (stdout st) (stderr st) true (outcome st) (timeout st)
          (graceTimer st) (alive st) (killed st) (signals st).

Definition clearTimeout (st : state) : state :=
  mkState (stdout st) (stderr st) (isResolved st) (outcome st) None
          (graceTimer st) (alive st) (killed st) (signals st).

Definition setGraceTimer (deadline : option Z) (st : state) : state :=
  mkState (stdout st) (stderr st) (isResolved st) (outcome st) (timeout st)
          deadline (alive st) (killed st) (signals st).

Definition ended (st : state) : state :=
  mkState (stdout st) (stderr st) (isResolved st) (outcome st) (timeout st)
          (graceTimer st) false (killed st) (signals st).

Definition timeoutError : Error :=
  newError "InDesign process timed out after 5 minutes. This may indicate missing fonts, missing links, or InDesign waiting for user input.".

(** The callback of the inner [setTimeout(..., 5000)]. *)
Definition onGraceTimer (st : state) : state :=
  let st := setGraceTimer None st in
  if negb (killed st) then kill SIGKILL st else st.

(** The callback of the outer [setTimeout(..., 5 * 60 * 1000)], run at
    time [now]. *)
Definition onTimeout (now : Z) (st : state) : state :=
  let st := clearTimeout st in
  if negb (isResolved st) then
    let st := kill SIGTERM st in
    let st := setGraceTimer (Some (now + graceMs)) st in
    reject timeoutError st
  else st.

(** The lines of stderr that survive the filter. *)
Definition keepLine (line : string) : bool :=
  negb (JS.includes "Class AdobeSimpleURLSession" line)
  && negb (JS.includes "objc[" line)
  && negb (JS.includes "is implemented in both" line)
  && negb (JS.includes "One of the duplicates must be removed" line).

Definition filteredStderr (stderr : string) : string :=
  JS.trim
    (JS.join (JS.chr JS.newline)
             (filter keepLine (JS.split JS.newline stderr))).

(** [`${code}`] for a number or [null]. *)
Definition codeToString (exitCode : option Z) : string :=
  match exitCode with
  | Some n => JS.numberToString n
  | None => "null"
  end.

(** [a || b] on strings. *)
Definition orElse (a b : string) : string := if JS.truthy a then a else b.

Definition executionError (exitCode : option Z) (filtered out : string)
  : Error :=
  newError ("InDesign script execution failed: "
            +:+ orElse filtered
                  (orElse out ("Exit code " +:+ codeToString exitCode))).

(** The ["close"] listener. *)
Definition onClose (exitCode : option Z) (st : state) : state :=
  let st := clearTimeout (setResolved st) in
  let filtered := filteredStderr (stderr st) in
  if negb (bool_decide (exitCode = Some 0)) || JS.includes "ERROR:" filtered
  then reject (executionError exitCode filtered (stdout st)) st
  else resolve (stdout st) st.

Definition launchError (indesignPath : string) (error : Error) : Error :=
  newError ("Failed to launch InDesign: " +:+ message error
            +:+ ". Please ensure InDesign is installed at: "
            +:+ indesignPath).

(** The ["error"] listener. *)
Definition onError (indesignPath : string) (error : Error) (st : state)
  : state :=
  let st := clearTimeout (setResolved st) in
  reject (launchError indesignPath error) st.

Definition onStdout (data : string) (st : state) : state :=
  mkState (stdout st +:+ data) (stderr st) (isResolved st) (outcome st)
          (timeout st) (graceTimer st) (alive st) (killed st) (signals st).

Definition onStderr (data : string) (st : state) : state :=
  mkState (stdout st) (stderr st +:+ data) (isResolved st) (outcome st)
          (timeout st) (graceTimer st) (alive st) (killed st) (signals st).

(** Dispatch of one event of the child to its listener. *)
Definition handle (indesignPath : string) (ev : childEvent) (st : state)
  : state :=
  match ev with
  | StdoutData data => onStdout data st
  | StderrData data => onStderr data st
  | ErrorEvent error => onError indesignPath error st
  | Exit => ended st
  | Close exitCode => onClose exitCode (ended st)
  end.

(** The clock reaches [now]: the timers that are due run, the
    five-minute timer before the grace timer it arms. *)
Definition fireTimeout (now : Z) (st : state) : state :=
  match timeout st with
  | Some deadline => if deadline <=? now then onTimeout deadline st else st
  | None => st
  end.

Definition fireGraceTimer (now : Z) (st : state) : state :=
  match graceTimer st with
  | Some deadline => if deadline <=? now then onGraceTimer st else st
  | None => st
  end.

Definition advance (now : Z) (st : state) : state :=
  fireGraceTimer now (fireTimeout now st).

(** A run of the child: its events with the time, in milliseconds
    since the spawn, at which each is delivered. *)
Definition trace := list (Z * childEvent).

Definition step (indesignPath : string) (st : state) (tev : Z * childEvent)
  : state :=
  handle indesignPath tev.2 (advance tev.1 st).

Definition run (indesignPath : string) (tr : trace) (st : state) : state :=
  fold_left (step indesignPath) tr st.

(** After the last event of the child time goes on: every pending
    timer runs. *)
Definition drain (st : state) : state :=
  let st :=
    match timeout st with
    | Some deadline => onTimeout deadline st
    | None => st
    end in
  match graceTimer st with
  | Some _ => onGraceTimer st
  | None => st
  end.

(** What the external application does once spawned. *)
Record behaviour := mkBehaviour { spawned : bool; events : trace }.

Definition execute (indesignPath : string) (b : behaviour) : state :=
  drain (run indesignPath (events b) (start (spawned b))).

End Runner.

(** ** services/indesignService.js: the generated ExtendScript *)

(** A double-quoted string literal of the script. *)
Definition quoted (s : string) : string :=
  JS.chr JS.quote +:+ s +:+ JS.chr JS.quote.

(** The lines of the template before the source file is named. *)
Definition scriptOpening : list string :=
  [ "#target indesign";
    EmptyString;
    "try {";
    "  $.writeln(" +:+ quoted "Starting InDesign conversion script..." +:+ ");";
    EmptyString;
    "  // Suppress all dialogs and user interaction";
    "  app.scriptPreferences.userInteractionLevel = UserInteractionLevels.NEVER_INTERACT;";
    EmptyString;
    "  $.writeln(" +:+ quoted "Opening InDesign document..." +:+ ");";
    EmptyString;
    "  // Open the InDesign document" ].

(** The lines between the two substituted paths. *)
Definition scriptExport : list string :=
  [ "  if (!sourceFile.exists) {";
    "    throw new Error(" +:+ quoted "Source file not found: " +:+ " + sourceFile.fsName);";
    "  }";
    EmptyString;
    "  var doc = app.open(sourceFile, false); // false = don't show dialogs";
    EmptyString;
    "  $.writeln(" +:+ quoted "Document opened successfully. Pages: " +:+ " + doc.pages.length);";
    EmptyString;
    "  // Check for missing fonts (don't fail, just warn)";
    "  if (doc.fonts.length > 0) {";
    "    $.writeln(" +:+ quoted "Document has " +:+ " + doc.fonts.length + " +:+ quoted " fonts" +:+ ");";
    "  }";
    EmptyString;
    "  // Export to PDF" ].

(** The lines after the output file is named. *)
Definition scriptClosing : list string :=
  [ EmptyString;
    "  $.writeln(" +:+ quoted "Configuring PDF export preferences..." +:+ ");";
    EmptyString;
    "  // Set PDF export preset (using default High Quality Print preset)";
    "  app.pdfExportPreferences.pageRange = PageRange.ALL_PAGES;";
    EmptyString;
    "  $.writeln(" +:+ quoted "Starting PDF export..." +:+ ");";
    EmptyString;
    "  // Export the document";
    "  doc.exportFile(ExportFormat.PDF_TYPE, pdfFile, false);";
    EmptyString;
    "  $.writeln(" +:+ quoted "PDF export completed successfully" +:+ ");";
    EmptyString;
    "  // Close the document without saving";
    "  doc.close(SaveOptions.NO);";
    EmptyString;
    "  $.writeln(" +:+ quoted "Document closed. Conversion complete." +:+ ");";
    EmptyString;
    "  // Quit InDesign to ensure process terminates";
    "  app.quit();";
    EmptyString;
    "  // Return success message";
    "  " +:+ quoted "SUCCESS" +:+ ";";
    EmptyString;
    "} catch (err) {";
    "  $.writeln(" +:+ quoted "ERROR occurred: " +:+ " + err.message);";
    EmptyString;
    "  // Close document if it's open";
    "  if (typeof doc !== 'undefined') {";
    "    try {";
    "      $.writeln(" +:+ quoted "Attempting to close document..." +:+ ");";
    "      doc.close(SaveOptions.NO);";
    "    } catch (e) {";
    "      $.writeln(" +:+ quoted "Could not close document: " +:+ " + e.message);";
    "    }";
    "  }";
    EmptyString;
    "  // Try to quit InDesign";
    "  try {";
    "    app.quit();";
    "  } catch (e) {}";
    EmptyString;
    "  // Write error to stderr";
    "  $.writeln(" +:+ quoted "ERROR: " +:+ " + err.message);";
    "  throw err;";
    "}" ].

(** The template literal [script] of [executeInDesignScript]; it begins
    and ends with a line break. *)
Definition extendScript (indesignFilePath pdfOutputPath : string) : string :=
  JS.join (JS.chr JS.newline)
    ([EmptyString] ++ scriptOpening
       ++ ["  var sourceFile = File("
             +:+ quoted (JS.replaceBackslashes indesignFilePath) +:+ ");"]
       ++ scriptExport
       ++ ["  var pdfFile = File("
             +:+ quoted (JS.replaceBackslashes pdfOutputPath) +:+ ");"]
       ++ scriptClosing ++ [EmptyString]).

(** ** services/indesignService.js: running the script *)

(** The machine the service runs on, and the external application:
    [application command args s] is what the spawned child does when
    started in file-system state [s], together with the file-system
    state at the moment the promise of the run settles. *)
Record Host := mkHost {
  platform : string;
  tmpdir : string;
  dateNow : Z;
  INDESIGN_APP_PATH : option string;
  application : string -> list string -> Fs.t -> Runner.behaviour * Fs.t
}.

Definition macDefaultPath : string :=
  "/Applications/Adobe InDesign 2024/Adobe InDesign 2024.app/Contents/MacOS/Adobe InDesign 2024".

Definition winDefaultPath : string :=
  "C:\Program Files\Adobe\Adobe InDesign 2024\InDesign.exe".

Definition unsupportedError : Error :=
  newError "Unsupported platform for Adobe InDesign automation".

(** [let indesignPath = config.indesignAppPath; if (!indesignPath) ...]:
    the configured path, or the default of the platform; [None] where
    the executor rejects. *)
Definition resolveIndesignPath (platform : string) (configured : option string)
  : option string :=
  let default :=
    if String.eqb platform "darwin" then Some macDefaultPath
    else if String.eqb platform "win32" then Some winDefaultPath
    else None in
  match configured with
  | Some p => if JS.truthy p then Some p else default
  | None => default
  end.

(** [scriptPath.replace(".jsx", ".scpt")] *)
Definition appleScriptPathOf (scriptPath : string) : string :=
  JS.replaceFirst ".jsx" ".scpt" scriptPath.

Definition tab : string := JS.chr "009"%char.

(** The template literal [appleScriptContent]. *)
Definition appleScriptContent (scriptPath : string) : string :=
  JS.join (JS.chr JS.newline)
    [ "tell application " +:+ quoted "Adobe InDesign 2026";
      tab +:+ "activate";
      tab +:+ "set scriptFile to POSIX file " +:+ quoted scriptPath;
      tab +:+ "do script scriptFile language javascript";
      "end tell" ].

(** The command and arguments handed to [spawn], after both platform
    branches; [None] where the executor rejects instead. *)
Definition spawnArguments (platform : string) (configured : option string)
  (scriptPath : string) : option (string * list string) :=
  match resolveIndesignPath platform configured with
  | None => None
  | Some indesignPath =>
      if String.eqb platform "darwin"
      then Some ("osascript", [appleScriptPathOf scriptPath])
      else if String.eqb platform "win32"
      then Some (indesignPath, ["-ScriptPath"; scriptPath])
      else None
  end.

(** From [spawn] to the settling of the promise. *)
Definition awaitChild (host : Host) (command : string) (args : list string)
  : Async string :=
  fun s =>
    let '(b, s') := application host command args s in
    match Runner.outcome (Runner.execute command b) with
    | Runner.Resolved value => Return value s'
    | Runner.Rejected reason => Throw reason s'
    | Runner.Unsettled => Pending
    end.

(** [runInDesignWithScript(scriptPath)].  On macOS the wrapper script
    is written first; were that write to throw, the [async] executor
    would end without [resolve] or [reject] being called. *)
Definition runInDesignWithScript (host : Host) (scriptPath : string)
  : Async string :=
  match spawnArguments (platform host)
          (configIndesignAppPath (INDESIGN_APP_PATH host)) scriptPath with
  | None => throw unsupportedError
  | Some (command, args) =>
      fun s =>
        let written :=
          if String.eqb (platform host) "darwin"
          then FsPromises.writeFile (appleScriptPathOf scriptPath)
                                    (appleScriptContent scriptPath) s
          else Return tt s in
        match written with
        | Return _ s1 => awaitChild host command args s1
        | _ => Pending
        end
  end.

(** [path.join(os.tmpdir(), `indesign_export_${Date.now()}.jsx`)] *)
Definition scriptPathOf (host : Host) : string :=
  Path.join (tmpdir host)
            ("indesign_export_" +:+ JS.numberToString (dateNow host)
               +:+ ".jsx").

(** [executeInDesignScript(indesignFilePath, pdfOutputPath)] *)
Definition executeInDesignScript (host : Host)
  (indesignFilePath pdfOutputPath : string) : Async unit :=
  let scriptPath := scriptPathOf host in
  let script := extendScript indesignFilePath pdfOutputPath in
  tryCatch
    (await FsPromises.writeFile scriptPath script in
     await runInDesignWithScript host scriptPath in
     ignoreErrors (FsPromises.unlink scriptPath))
    (fun error =>
       await ignoreErrors (FsPromises.unlink scriptPath) in
       throw error).

(** [checkFileExists(filePath)] *)
Definition checkFileExists (filePath : string) : Async bool :=
  tryCatch (await FsPromises.access filePath in ret true)
           (fun _ => ret false).

(** The output path: the base name of the document without its
    extension, with [.pdf], inside [outputDir]. *)
Definition pdfPathOf (indesignFilePath outputDir : string) : string :=
  let filename :=
    Path.basename indesignFilePath (Path.extname indesignFilePath) in
  Path.join outputDir (filename +:+ ".pdf").

(** The [try] block of [convertInDesignToPDF]. *)
Definition convertBody (host : Host) (indesignFilePath outputDir : string)
  : Async string :=
  let* fileExists := checkFileExists indesignFilePath in
  if negb fileExists
  then throw (newError ("InDesign file not found: " +:+ indesignFilePath))
  else
    let pdfPath := pdfPathOf indesignFilePath outputDir in
    await FsPromises.mkdir outputDir in
    await executeInDesignScript host indesignFilePath pdfPath in
    let* pdfExists := checkFileExists pdfPath in
    if negb pdfExists
    then throw (newError "PDF was not generated successfully")
    else ret pdfPath.

(** The [catch] block of [convertInDesignToPDF]. *)
Definition conversionError (error : Error) : Error :=
  newError ("Failed to convert InDesign to PDF: " +:+ message error).

(** [convertInDesignToPDF(indesignFilePath, outputDir)] *)
Definition convertInDesignToPDF (host : Host)
  (indesignFilePath outputDir : string) : Async string :=
  tryCatch (convertBody host indesignFilePath outputDir)
           (fun error => throw (conversionError error)).

(** ** Reference definitions for the locator

    [filesDepthFirst] and [firstInDesignFile] are not taken from the
    code: they say in the words of the specification what the locator
    is to return, and [findInDesignFile] is compared with them below. *)

(** The regular files of an entry in depth-first order of the
    enumeration, each with its path and its name, never descending into
    a system directory. *)
Fixpoint filesOfEntry (dirPath : string) (e : entry) : list (string * string) :=
  let fullPath := Path.join dirPath (entryName e) in
  match e with
  | FileEntry name => [(fullPath, name)]
  | DirEntry name entries =>
      if isSystemDirectory name then []
      else flat_map (filesOfEntry fullPath) entries
  | UnreadableDirEntry _ _ => []
  | OtherEntry _ => []
  end.

Definition filesDepthFirst (dirPath : string) (entries : list entry)
  : list (string * string) :=
  flat_map (filesOfEntry dirPath) entries.

(** The path of the first file of the traversal whose extension is
    [.indd] or [.idml], if there is one. *)
Definition firstInDesignFile (dirPath : string) (entries : list entry)
  : option string :=
  option_map fst
    (List.find (fun pn => hasInDesignExtension pn.2)
               (filesDepthFirst dirPath entries)).

(** Every directory of the tree can be enumerated. *)
Fixpoint readable (e : entry) : bool :=
  match e with
  | DirEntry _ entries => forallb readable entries
  | UnreadableDirEntry _ _ => false
  | FileEntry _ | OtherEntry _ => true
  end.

(** Some regular file of the tree, at any depth and in any directory,
    has an InDesign extension. *)
Fixpoint containsInDesignFile (e : entry) : bool :=
  match e with
  | FileEntry name => hasInDesignExtension name
  | DirEntry _ entries => existsb containsInDesignFile entries
  | UnreadableDirEntry _ _ | OtherEntry _ => false
  end.

(** The upper-case form of an ASCII letter. *)
Definition upperChar (c : ascii) : ascii :=
  let n := nat_of_ascii c in
  if (97 <=? n)%nat && (n <=? 122)%nat then ascii_of_nat (n - 32) else c.

(** [x] is a capitalization of [s]: letter by letter, [x] has the
    character of [s] or its upper-case form. *)
Fixpoint isCapitalizationOf (s x : string) : bool :=
  match s, x with
  | EmptyString, EmptyString => true
  | String a s', String b x' =>
      (Ascii.eqb b a || Ascii.eqb b (upperChar a)) && isCapitalizationOf s' x'
  | _, _ => false
  end.

(** ** Invariants of the runner *)

(** While the promise is unsettled the five-minute timer is armed
    and [isResolved] is still false. *)
Definition waiting (st : Runner.state) : Prop :=
  Runner.outcome st = Runner.Unsettled -> Runner.isResolved st = false /\ Runner.timeout st <> None.

(** Once the grace timer is armed, [SIGTERM] has been delivered or
    the process has ended; and [SIGKILL] has not been delivered. *)
Definition escalation (st : Runner.state) : Prop :=
  ~ In Runner.SIGKILL (Runner.signals st)
  /\ (Runner.graceTimer st <> None -> Runner.killed st = true \/ Runner.alive st = false).

(** ** Scenarios *)

Module Scenario.

Import Runner.

(** An application that exports the PDF and closes with code 0. *)
Definition exporting (pdf : string)
  : string -> list string -> Fs.t -> behaviour * Fs.t :=
  fun _ _ s =>
    (mkBehaviour true
       [(1500, StdoutData "PDF export completed successfully");
        (9000, Exit); (9001, Close (Some 0))],
     <[pdf := Fs.RegularFile "%PDF-1.7"]> s).

(** An application that closes with code 0 without writing anything. *)
Definition idle : string -> list string -> Fs.t -> behaviour * Fs.t :=
  fun _ _ s => (mkBehaviour true [(9000, Exit); (9001, Close (Some 0))], s).

(** An application whose script fails: the marker on stderr, then a
    close with code 1. *)
Definition failing : string -> list string -> Fs.t -> behaviour * Fs.t :=
  fun _ _ s =>
    (mkBehaviour true
       [(3000, StderrData "ERROR: export failed"); (3100, Exit);
        (3101, Close (Some 1))],
     s).

(** An application that never ends and disregards [SIGTERM]. *)
Definition hanging : behaviour := mkBehaviour true [].

(** The runner after the script's error branch has written its
    marker on stderr, and on stdout. *)
Definition markerOnStderr : state :=
  run "osascript" [(1200, StderrData "ERROR: export failed")] (start true).

Definition markerOnStdout : state :=
  run "osascript" [(1200, StdoutData "ERROR: export failed")] (start true).

Definition macHost : Host :=
  mkHost "darwin" "/tmp" 1730500000000 (Some "/opt/Adobe/InDesign")
         (exporting "/work/out/doc.pdf").

Definition winHost : Host :=
  mkHost "win32" "/tmp" 1730500000000 None (exporting "/work/out/doc.pdf").

Definition macFailingHost : Host :=
  mkHost "darwin" "/tmp" 1730500000000 None failing.

Definition idleHost : Host := mkHost "win32" "/tmp" 1730500000000 None idle.

Definition disk : Fs.t :=
  <["/work/in/doc.indd" := Fs.RegularFile "indd"]>
    (<["/work/in" := Fs.Dir]> ∅).

(** An archive with resource forks, a hidden directory and the
    document two levels down. *)
Definition archive : list entry :=
  [ DirEntry "__MACOSX" [FileEntry "._Brochure.indd"];
    DirEntry ".cache" [FileEntry "old.idml"];
    OtherEntry "link.indd";
    DirEntry "job"
      [ FileEntry "readme.txt";
        DirEntry "Links" [FileEntry "photo.png"];
        FileEntry "Brochure.INDD" ];
    FileEntry "other.idml" ].

(** What AdmZip throws on a file that is no archive. *)
Definition corruptZip : extraction :=
  ExtractionFails
    (newError "Invalid or unsupported zip format. No END header found").

(** An archive without any document. *)
Definition fontsOnly : list entry :=
  [ DirEntry "Fonts" [FileEntry "Garamond.otf"]; FileEntry "notes.txt" ].

End Scenario.

(** ** Further invariants and reference definitions of the runner *)

(** The text a trace delivers on stdout, in order of arrival. *)
Fixpoint stdoutOf (tr : Runner.trace) : string :=
  match tr with
  | [] => EmptyString
  | (_, Runner.StdoutData data) :: rest => data +:+ stdoutOf rest
  | _ :: rest => stdoutOf rest
  end.

(** The text a trace delivers on stderr, in order of arrival. *)
Fixpoint stderrOf (tr : Runner.trace) : string :=
  match tr with
  | [] => EmptyString
  | (_, Runner.StderrData data) :: rest => data +:+ stderrOf rest
  | _ :: rest => stderrOf rest
  end.

(** An event that settles nothing: output, or the end of the process
    before its streams are closed. *)
Definition isOutput (ev : Runner.childEvent) : bool :=
  match ev with
  | Runner.StdoutData _ | Runner.StderrData _ | Runner.Exit => true
  | Runner.ErrorEvent _ | Runner.Close _ => false
  end.

(** Every event of the trace is output and is delivered before the
    five-minute deadline. *)
Definition outputInTime (tr : Runner.trace) : bool :=
  forallb (fun tev => isOutput tev.2 && (tev.1 <? Runner.timeoutMs)) tr.

(** Signals and timers: while the five-minute timer is armed nothing
    has been sent and the grace timer is not armed; whatever has been
    sent is one [SIGTERM], to a run already rejected as timed out; and
    the grace timer is armed only after [SIGTERM] was delivered or the
    process had ended. *)
Definition signalling (st : Runner.state) : Prop :=
  (Runner.timeout st <> None ->
   Runner.signals st = [] /\ Runner.graceTimer st = None
   /\ (Runner.isResolved st = false -> Runner.outcome st = Runner.Unsettled))
  /\ (Runner.signals st = []
      \/ (Runner.signals st = [Runner.SIGTERM]
          /\ Runner.outcome st = Runner.Rejected Runner.timeoutError
          /\ Runner.killed st = true))
  /\ (Runner.graceTimer st <> None ->
      Runner.killed st = true \/ Runner.alive st = false).


(** ** utils/fileCleanup.js: the other routines *)



(** ** services/indesignService.js: the availability probe *)

(** [testInDesignConnection()] *)
Definition testInDesignConnection (host : Host) : Async bool :=
  tryCatch
    (match resolveIndesignPath (platform host)
             (configIndesignAppPath (INDESIGN_APP_PATH host)) with
     | None => ret false
     | Some indesignPath =>
         let* exists_ := checkFileExists indesignPath in
         ret exists_
     end)
    (fun _ => ret false).


(** ** utils/fileCleanup.js: concurrent deletion *)

















(** ** routes/upload.js *)


(** The [fileFilter] of multer: [Ok] is [cb(null, true)], [Err] is
    [cb(new Error(...))]. *)
Definition fileFilter (originalName : string) : result unit :=
  let ext := JS.toLowerCase (Path.extname originalName) in
  if negb (String.eqb ext ".zip")
  then Err (newError "Only .zip files are allowed")
  else Ok tt.

(** The [filename] of the disk storage: [`${uuidv4()}${path.extname(
    file.originalname)}`]. *)
Definition storedFilename (uuid originalName : string) : string :=
  uuid +:+ Path.extname originalName.









(** ** Further scenarios *)

Module Cases.

(** A Linux host whose setting names an existing binary. *)
Definition linuxHost : Host :=
  mkHost "linux" "/tmp" 1730500000000 (Some "/opt/indesign/indesign")
         Scenario.idle.

Definition linuxDisk : Fs.t :=
  <["/opt/indesign/indesign" := Fs.RegularFile "ELF"]> ∅.








End Cases.

(** * Properties *)

(** ** Strings *)

Section StringFacts.

Lemma prefix_refl (s : string) : String.prefix s s = true.
Proof.
  induction s as [|c s IH]; simpl; [reflexivity|].
  destruct (ascii_dec c c); [exact IH | congruence].
Qed.

Lemma includes_refl (s : string) : JS.includes s s = true.
Proof.
  destruct s; [reflexivity|].
  cbn [JS.includes]. now rewrite prefix_refl.
Qed.

Lemma includes_cons (x : string) (c : ascii) (s : string) :
  JS.includes x s = true -> JS.includes x (String c s) = true.
Proof.
  intros H. simpl.
  destruct x as [|a x]; [reflexivity|].
  destruct (ascii_dec a c); [|exact H].
  destruct (String.prefix x s); [reflexivity | exact H].
Qed.

(** The text appended after a prefix is still found. *)
Lemma includes_append (p x : string) : JS.includes x (p +:+ x) = true.
Proof.
  induction p as [|c p IH]; simpl String.append.
  - apply includes_refl.
  - now apply includes_cons.
Qed.

Lemma startsWith_append (p x : string) : JS.startsWith p (p +:+ x) = true.
Proof.
  unfold JS.startsWith.
  induction p as [|c p IH]; simpl; [now destruct x|].
  destruct (ascii_dec c c); [exact IH | congruence].
Qed.

Lemma truthy_nonempty (s : string) : s <> EmptyString -> JS.truthy s = true.
Proof. destruct s; [congruence | reflexivity]. Qed.

Lemma append_nonempty_l (a b : string) :
  a <> EmptyString -> a +:+ b <> EmptyString.
Proof. destruct a; [congruence | discriminate]. Qed.

End StringFacts.

(** ** utils/fileCleanup.js *)

Section Cleanup.

Lemma deleteFile_absent (p : string) (s : Fs.t) :
  s !! p = None -> deleteFile p s = Return tt s.
Proof.
  intros Habs.
  unfold deleteFile, tryCatch, bind, FsPromises.stat.
  rewrite Habs. reflexivity.
Qed.

(** [deleteFile] never throws and always settles. *)
Lemma deleteFile_returns (p : string) (s : Fs.t) :
  exists s', deleteFile p s = Return tt s'.
Proof.
  unfold deleteFile, tryCatch, bind, FsPromises.stat.
  destruct (s !! p) as [[content|]|] eqn:Hp; simpl.
  - unfold FsPromises.unlink. rewrite Hp. eauto.
  - unfold FsPromises.rm. eauto.
  - eauto.
Qed.

(** After [deleteFile] the target is gone. *)
Lemma deleteFile_removes (p : string) (s s' : Fs.t) :
  deleteFile p s = Return tt s' -> s' !! p = None.
Proof.
  unfold deleteFile, tryCatch, bind, FsPromises.stat.
  destruct (s !! p) as [[content|]|] eqn:Hp; simpl.
  - unfold FsPromises.unlink. rewrite Hp.
    intros [= <-]. apply lookup_delete_eq.
  - unfold FsPromises.rm. intros [= <-].
    apply map_lookup_filter_None. right. intros x _. simpl.
    rewrite String.eqb_refl. simpl. tauto.
  - intros [= <-]. exact Hp.
Qed.

(** C9: on a path that does not exist, [deleteFile] completes without
    raising and leaves the file system as it was, and so does a second
    call made right after the first. *)
Theorem deleteFile_twice_on_absent_path (p : string) (s : Fs.t) :
  s !! p = None ->
  deleteFile p s = Return tt s
  /\ (await deleteFile p in deleteFile p) s = Return tt s.
Proof.
  intros Habs. pose proof (deleteFile_absent p s Habs) as H1.
  split; [exact H1|].
  unfold bind. rewrite H1. exact H1.
Qed.

Lemma deleteFile_twice_on_absent_path_witness :
  Scenario.disk !! "/work/gone.pdf" = None
  /\ deleteFile "/work/gone.pdf" Scenario.disk = Return tt Scenario.disk
  /\ (await deleteFile "/work/gone.pdf" in deleteFile "/work/gone.pdf")
       Scenario.disk = Return tt Scenario.disk.
Proof.
  assert (Habs : Scenario.disk !! "/work/gone.pdf" = None)
    by (vm_compute; reflexivity).
  split; [exact Habs|].
  exact (deleteFile_twice_on_absent_path "/work/gone.pdf" Scenario.disk Habs).
Defined.

(** Deleting is idempotent on every path: a second call returns
    normally and changes nothing. *)
Lemma deleteFile_idempotent (p : string) (s : Fs.t) :
  (await deleteFile p in deleteFile p) s = deleteFile p s.
Proof.
  destruct (deleteFile_returns p s) as [s' Hs'].
  unfold bind. rewrite Hs'.
  apply deleteFile_absent. eapply deleteFile_removes; eauto.
Qed.

End Cleanup.

(** ** The process runner *)

Section RunnerFacts.

Import Runner.

Variable indesignPath : string.

Lemma settle_unsettled (p : promise) (st : state) :
  outcome st = Unsettled -> outcome (settle p st) = p.
Proof. unfold settle. intros ->. reflexivity. Qed.

Lemma settle_settled (p : promise) (st : state) :
  outcome st <> Unsettled -> settle p st = st.
Proof. unfold settle. destruct (outcome st); congruence. Qed.

(** C1 (as amended): when the ["close"] event reaches a run whose
    promise is not yet settled, the promise is resolved with the
    accumulated stdout exactly when the exit code is zero and the
    filtered stderr does not contain [ERROR:]; in every other case it
    is rejected with the execution error.  The stdout text takes no
    part in the decision. *)
Theorem close_classification (exitCode : option Z) (st : state) :
  outcome st = Unsettled ->
  let st' := handle indesignPath (Close exitCode) st in
  let filtered := filteredStderr (stderr st) in
  (outcome st' = Resolved (stdout st)
   <-> exitCode = Some 0 /\ JS.includes "ERROR:" filtered = false)
  /\ (~ (exitCode = Some 0 /\ JS.includes "ERROR:" filtered = false) ->
      outcome st'
      = Rejected (executionError exitCode filtered (stdout st))
      /\ JS.startsWith "InDesign script execution failed: "
           (message (executionError exitCode filtered (stdout st))) = true).
Proof.
  intros Hun. cbn zeta. unfold handle, onClose. cbn [stderr stdout ended clearTimeout setResolved].
  set (filtered := filteredStderr (stderr st)).
  assert (Hun' : outcome (clearTimeout (setResolved (ended st))) = Unsettled)
    by exact Hun.
  unfold reject, resolve.
  destruct (bool_decide (exitCode = Some 0)) eqn:Hcode;
    [apply bool_decide_eq_true in Hcode | apply bool_decide_eq_false in Hcode];
    destruct (JS.includes "ERROR:" filtered) eqn:Hmark; cbn [negb orb];
    rewrite (settle_unsettled _ _ Hun').
  - split.
    + split; [discriminate | intros [_ H]; discriminate H].
    + intros _. split; [reflexivity | apply startsWith_append].
  - split.
    + split; [auto | reflexivity].
    + intros Hn. exfalso. apply Hn. auto.
  - split.
    + split; [discriminate | intros [H _]; contradiction].
    + intros _. split; [reflexivity | apply startsWith_append].
  - split.
    + split; [discriminate | intros [H _]; contradiction].
    + intros _. split; [reflexivity | apply startsWith_append].
Qed.

Ltac crush_state st :=
  destruct st as [out err res oc tmo grc alv kil sigs];
  unfold waiting, escalation, onTimeout, onGraceTimer, onClose, onError,
    onStdout, onStderr, ended, reject, resolve, settle, kill, clearTimeout,
    setResolved, setGraceTimer in *;
  cbn [stdout stderr isResolved outcome timeout graceTimer alive killed
       signals negb] in *.

Lemma waiting_start (spawned : bool) : waiting (start spawned).
Proof. unfold waiting, start. cbn. intros _. split; [reflexivity | discriminate]. Qed.

Lemma waiting_onTimeout (now : Z) (st : state) :
  waiting st -> outcome (onTimeout now st) <> Unsettled.
Proof.
  crush_state st. intros Hw.
  destruct oc; try (destruct res, alv; cbn; discriminate).
  destruct (Hw eq_refl) as [-> _]. destruct alv; cbn; discriminate.
Qed.

Lemma waiting_settled (st : state) : outcome st <> Unsettled -> waiting st.
Proof. unfold waiting. congruence. Qed.

Lemma outcome_onGraceTimer (st : state) :
  outcome (onGraceTimer st) = outcome st.
Proof. crush_state st. destruct kil, alv; reflexivity. Qed.

Lemma waiting_advance (now : Z) (st : state) :
  waiting st -> waiting (advance now st).
Proof.
  intros Hw. unfold advance.
  assert (H1 : waiting (fireTimeout now st)).
  { unfold fireTimeout. destruct (timeout st) as [d|] eqn:Ht; [|exact Hw].
    destruct (d <=? now); [|exact Hw].
    apply waiting_settled, waiting_onTimeout, Hw. }
  revert H1. generalize (fireTimeout now st). intros st1 H1.
  unfold fireGraceTimer. destruct (graceTimer st1) as [g|] eqn:Hg; [|exact H1].
  destruct (g <=? now); [|exact H1].
  clear Hg. crush_state st1. destruct kil, alv; exact H1.
Qed.

Lemma waiting_handle (ev : childEvent) (st : state) :
  waiting st -> waiting (handle indesignPath ev st).
Proof.
  destruct ev; unfold handle; crush_state st; intros Hw;
    try exact Hw; destruct oc; cbn; intros; try discriminate; auto.
  all: destruct (_ || _); cbn in *; discriminate.
Qed.

Lemma waiting_run (tr : trace) (st : state) :
  waiting st -> waiting (run indesignPath tr st).
Proof.
  revert st. induction tr as [|tev tr IH]; intros st Hw; [exact Hw|].
  apply IH. apply waiting_handle, waiting_advance, Hw.
Qed.

(** Every spawned run settles: by a ["close"] or ["error"] event or,
    failing those, by the five-minute timer. *)
Lemma execute_settles (b : behaviour) :
  outcome (execute indesignPath b) <> Unsettled.
Proof.
  unfold execute.
  pose proof (waiting_run (events b) _ (waiting_start (spawned b))) as Hw.
  revert Hw. generalize (run indesignPath (events b) (start (spawned b))).
  intros st Hw. unfold drain.
  destruct (timeout st) as [d|] eqn:Ht.
  - pose proof (waiting_onTimeout d st Hw) as Hs.
    destruct (graceTimer (onTimeout d st));
      [rewrite outcome_onGraceTimer|]; exact Hs.
  - assert (Hs : outcome st <> Unsettled).
    { intros Hun. destruct (Hw Hun) as [_ Hn]. congruence. }
    destruct (graceTimer st); [rewrite outcome_onGraceTimer|]; exact Hs.
Qed.

Lemma escalation_start (spawned : bool) : escalation (start spawned).
Proof. unfold escalation, start. cbn. split; [tauto | congruence]. Qed.

Lemma not_in_snoc_SIGTERM (sigs : list signal) :
  ~ In SIGKILL sigs -> ~ In SIGKILL (sigs ++ [SIGTERM]).
Proof.
  intros Hn Hin. apply in_app_or in Hin. destruct Hin as [Hin|[Hin|[]]];
    [tauto | discriminate].
Qed.

Lemma escalation_onTimeout (now : Z) (st : state) :
  escalation st -> escalation (onTimeout now st).
Proof.
  crush_state st. intros [Hk Hg].
  destruct res; cbn; [split; assumption|].
  destruct alv; cbn; destruct oc; cbn;
    (split; [try apply not_in_snoc_SIGTERM; exact Hk | intros _; auto]).
Qed.

Lemma escalation_onGraceTimer (st : state) :
  escalation st -> graceTimer st <> None -> escalation (onGraceTimer st).
Proof.
  crush_state st. intros [Hk Hg] Hsome.
  destruct (Hg Hsome) as [-> | ->]; cbn.
  - split; [exact Hk | congruence].
  - destruct kil; cbn; (split; [exact Hk | congruence]).
Qed.

Lemma escalation_advance (now : Z) (st : state) :
  escalation st -> escalation (advance now st).
Proof.
  intros He. unfold advance.
  assert (H1 : escalation (fireTimeout now st)).
  { unfold fireTimeout. destruct (timeout st) as [d|]; [|exact He].
    destruct (d <=? now); [|exact He]. now apply escalation_onTimeout. }
  revert H1. generalize (fireTimeout now st). intros st1 H1.
  unfold fireGraceTimer. destruct (graceTimer st1) as [g|] eqn:Hg; [|exact H1].
  destruct (g <=? now); [|exact H1].
  apply escalation_onGraceTimer; [exact H1 | congruence].
Qed.

Lemma escalation_handle (ev : childEvent) (st : state) :
  escalation st -> escalation (handle indesignPath ev st).
Proof.
  destruct ev; unfold handle; crush_state st; intros [Hk Hg];
    try (split; assumption).
  - destruct oc; cbn; (split; [exact Hk | exact Hg]).
  - split; [exact Hk | auto].
  - destruct (_ || _); destruct oc; cbn; (split; [exact Hk | auto]).
Qed.

Lemma escalation_run (tr : trace) (st : state) :
  escalation st -> escalation (run indesignPath tr st).
Proof.
  revert st. induction tr as [|tev tr IH]; intros st He; [exact He|].
  apply IH. apply escalation_handle, escalation_advance, He.
Qed.

(** Whatever the child does and however long it lives, the runner
    never delivers [SIGKILL]: the grace timer tests
    [childProcess.killed], which the delivery of [SIGTERM] has already
    set. *)
Lemma SIGKILL_never_delivered (b : behaviour) :
  ~ In SIGKILL (signals (execute indesignPath b)).
Proof.
  unfold execute.
  pose proof (escalation_run (events b) _ (escalation_start (spawned b)))
    as He.
  revert He. generalize (run indesignPath (events b) (start (spawned b))).
  intros st He. unfold drain.
  assert (H1 : escalation
                 match timeout st with
                 | Some deadline => onTimeout deadline st
                 | None => st
                 end).
  { destruct (timeout st); [now apply escalation_onTimeout | exact He]. }
  revert H1.
  generalize (match timeout st with
              | Some deadline => onTimeout deadline st
              | None => st
              end).
  intros st1 H1. destruct (graceTimer st1) eqn:Hg; [|apply H1].
  apply escalation_onGraceTimer; [exact H1 | congruence].
Qed.

End RunnerFacts.

Section RunnerScenarios.

Import Runner.

Lemma close_classification_witness :
  outcome Scenario.markerOnStderr = Unsettled
  /\ outcome (handle "osascript" (Close (Some 0)) Scenario.markerOnStderr)
     = Rejected (newError "InDesign script execution failed: ERROR: export failed").
Proof.
  assert (Hun : outcome Scenario.markerOnStderr = Unsettled)
    by (vm_compute; reflexivity).
  split; [exact Hun|].
  destruct (close_classification "osascript" (Some 0) _ Hun) as [_ Hrej].
  refine (eq_trans (proj1 (Hrej _)) _).
  - intros [_ Hmark]. vm_compute in Hmark. discriminate Hmark.
  - vm_compute. reflexivity.
Defined.

(** C1, counterexample: a child that prints [ERROR: export failed] on
    stdout and closes with code 0 is classified as a success, although
    its stdout contains the marker. *)
Lemma stdout_marker_is_not_examined :
  ~ ((exists value,
         outcome (handle "osascript" (Close (Some 0))
                         Scenario.markerOnStdout) = Resolved value)
     <-> (Some 0 = Some 0 :> option Z)
         /\ JS.includes "ERROR:"
              (filteredStderr (stderr Scenario.markerOnStdout)) = false
         /\ JS.includes "ERROR:" (stdout Scenario.markerOnStdout) = false).
Proof.
  intros [Hsucc _].
  destruct Hsucc as (_ & _ & Hout).
  - exists "ERROR: export failed". vm_compute. reflexivity.
  - vm_compute in Hout. discriminate Hout.
Qed.

(** C3, at the failing input: a child that never ends and disregards
    [SIGTERM].  Nothing happens before the five-minute deadline; at the
    deadline the promise is rejected with the timeout error, [SIGTERM]
    is delivered and the grace timer is armed for five seconds later;
    when the grace timer runs the process is still alive, yet no
    [SIGKILL] is sent, and none is sent afterwards. *)
Theorem hung_child_is_never_sent_SIGKILL :
  advance (timeoutMs - 1) (start true) = start true
  /\ (let st := advance timeoutMs (start true) in
      outcome st = Rejected timeoutError
      /\ signals st = [SIGTERM]
      /\ graceTimer st = Some (timeoutMs + graceMs))
  /\ (let st := advance (timeoutMs + graceMs) (start true) in
      alive st = true /\ graceTimer st = None /\ signals st = [SIGTERM])
  /\ (let st := execute "osascript" Scenario.hanging in
      outcome st = Rejected timeoutError
      /\ alive st = true /\ signals st = [SIGTERM]).
Proof. vm_compute. repeat split; reflexivity. Qed.

End RunnerScenarios.

(** ** The conversion *)

Section Conversion.

Variable host : Host.

Lemma checkFileExists_present (p : string) (s : Fs.t) (n : Fs.node) :
  s !! p = Some n -> checkFileExists p s = Return true s.
Proof.
  intros Hp. unfold checkFileExists, tryCatch, bind, FsPromises.access.
  rewrite Hp. reflexivity.
Qed.

Lemma checkFileExists_absent (p : string) (s : Fs.t) :
  s !! p = None -> checkFileExists p s = Return false s.
Proof.
  intros Hp. unfold checkFileExists, tryCatch, bind, FsPromises.access.
  rewrite Hp. reflexivity.
Qed.

(** [checkFileExists] reports what the file system holds and leaves
    it unchanged. *)
Lemma checkFileExists_spec (p : string) (s : Fs.t) :
  checkFileExists p s = Return (bool_decide (is_Some (s !! p))) s.
Proof.
  destruct (s !! p) as [n|] eqn:Hp.
  - rewrite (checkFileExists_present p s n Hp).
    rewrite bool_decide_eq_true_2; [reflexivity | eauto].
  - rewrite (checkFileExists_absent p s Hp).
    rewrite bool_decide_eq_false_2; [reflexivity|].
    intros [x Hx]. discriminate Hx.
Qed.

(** How [convertBody] ends, by the outcome of its steps. *)
Lemma convertBody_returns (i o pdf : string) (s s' : Fs.t) :
  convertBody host i o s = Return pdf s' ->
  pdf = pdfPathOf i o /\ is_Some (s' !! pdf).
Proof.
  unfold convertBody, bind.
  rewrite checkFileExists_spec.
  destruct (bool_decide (is_Some (s !! i))); cbn [negb]; [|discriminate].
  destruct (FsPromises.mkdir o s) as [[] s1|e s1|]; try discriminate.
  destruct (executeInDesignScript host i (pdfPathOf i o) s1)
    as [[] s2|e s2|]; try discriminate.
  rewrite checkFileExists_spec.
  destruct (bool_decide (is_Some (s2 !! pdfPathOf i o))) eqn:Hpdf;
    cbn [negb]; [|discriminate].
  intros [= <- <-]. split; [reflexivity|].
  now apply bool_decide_eq_true in Hpdf.
Qed.

(** C2: a call that returns, returns the derived PDF path and that
    path exists in the file system at return time; and when the script
    run reports success but has left no file at the PDF path, the call
    throws the wrapped "PDF was not generated successfully" error. *)
Theorem convert_never_returns_a_missing_pdf (i o : string) (s : Fs.t) :
  (forall pdf s',
      convertInDesignToPDF host i o s = Return pdf s' ->
      pdf = pdfPathOf i o /\ is_Some (s' !! pdf))
  /\ (forall s1 s2,
         is_Some (s !! i) ->
         FsPromises.mkdir o s = Return tt s1 ->
         executeInDesignScript host i (pdfPathOf i o) s1 = Return tt s2 ->
         s2 !! pdfPathOf i o = None ->
         convertInDesignToPDF host i o s
         = Throw (newError "Failed to convert InDesign to PDF: PDF was not generated successfully") s2).
Proof.
  split.
  - intros pdf s'. unfold convertInDesignToPDF, tryCatch.
    destruct (convertBody host i o s) as [a s0|e s0|] eqn:Hbody;
      try discriminate.
    intros [= <- <-]. eapply convertBody_returns; eauto.
  - intros s1 s2 [n Hin] Hmk Hrun Hpdf.
    unfold convertInDesignToPDF, tryCatch, convertBody, bind.
    rewrite (checkFileExists_present _ _ _ Hin). cbn [negb].
    rewrite Hmk, Hrun, (checkFileExists_absent _ _ Hpdf). reflexivity.
Qed.

(** Every throw of the [try] block leaves [convertInDesignToPDF]
    wrapped by the [catch]. *)
Lemma convert_wraps (i o : string) (s s' : Fs.t) (cause : Error) :
  convertBody host i o s = Throw cause s' ->
  convertInDesignToPDF host i o s = Throw (conversionError cause) s'.
Proof. unfold convertInDesignToPDF, tryCatch. now intros ->. Qed.

Lemma convert_throw_inv (i o : string) (s s' : Fs.t) (e : Error) :
  convertInDesignToPDF host i o s = Throw e s' ->
  exists cause,
    convertBody host i o s = Throw cause s' /\ e = conversionError cause.
Proof.
  unfold convertInDesignToPDF, tryCatch.
  destruct (convertBody host i o s) as [a s0|c s0|]; try discriminate.
  intros [= <- <-]. eauto.
Qed.

(** After [unlink(p).catch(() => {})] no regular file is left at [p]. *)
Lemma unlink_ignoring_errors (p : string) (s : Fs.t) :
  exists s', ignoreErrors (FsPromises.unlink p) s = Return tt s'
             /\ (s' !! p = None \/ s' !! p = Some Fs.Dir)
             /\ (forall q, q <> p -> s' !! q = s !! q).
Proof.
  unfold ignoreErrors, tryCatch, FsPromises.unlink.
  destruct (s !! p) as [[content|]|] eqn:Hp.
  - exists (delete p s). split; [reflexivity|]. split.
    + left. apply lookup_delete_eq.
    + intros q Hq. now apply lookup_delete_ne.
  - exists s. cbn. auto.
  - exists s. cbn. auto.
Qed.

(** The generated script is removed on every path out of
    [executeInDesignScript]: whether it returns or throws, no regular
    file is left at the script path. *)
Lemma script_file_is_removed (i o : string) (s : Fs.t) :
  match executeInDesignScript host i o s with
  | Return _ s' | Throw _ s' =>
      s' !! scriptPathOf host = None \/ s' !! scriptPathOf host = Some Fs.Dir
  | Pending => True
  end.
Proof.
  unfold executeInDesignScript, tryCatch, bind.
  destruct (FsPromises.writeFile (scriptPathOf host) (extendScript i o) s)
    as [[] s1|e s1|].
  - destruct (runInDesignWithScript host (scriptPathOf host) s1)
      as [out s2|e s2|]; [| |exact I].
    + destruct (unlink_ignoring_errors (scriptPathOf host) s2)
        as (s3 & -> & H & _). exact H.
    + destruct (unlink_ignoring_errors (scriptPathOf host) s2)
        as (s3 & -> & H & _). exact H.
  - destruct (unlink_ignoring_errors (scriptPathOf host) s1)
      as (s3 & -> & H & _). exact H.
  - exact I.
Qed.

Lemma spawnArguments_darwin (configured : option string) (p : string) :
  spawnArguments "darwin" configured p
  = Some ("osascript", [appleScriptPathOf p]).
Proof.
  unfold spawnArguments, resolveIndesignPath. cbn.
  destruct configured as [c|]; [destruct (JS.truthy c)|]; reflexivity.
Qed.

(** On macOS the wrapper script outlives the run on every path: if
    both scripts can be written and the application itself does not
    touch the wrapper, then [executeInDesignScript] settles, by a return
    or by a throw, with the wrapper still on disk. *)
Lemma wrapper_script_is_never_removed (i o : string) (s : Fs.t) :
  platform host = "darwin" ->
  appleScriptPathOf (scriptPathOf host) <> scriptPathOf host ->
  s !! scriptPathOf host <> Some Fs.Dir ->
  s !! appleScriptPathOf (scriptPathOf host) <> Some Fs.Dir ->
  (forall command args s0,
      (application host command args s0).2
        !! appleScriptPathOf (scriptPathOf host)
      = s0 !! appleScriptPathOf (scriptPathOf host)) ->
  exists s',
    (executeInDesignScript host i o s = Return tt s'
     \/ exists e, executeInDesignScript host i o s = Throw e s')
    /\ s' !! appleScriptPathOf (scriptPathOf host)
       = Some (Fs.RegularFile (appleScriptContent (scriptPathOf host))).
Proof.
  intros Hmac Hne Hjsx Hscpt Hkeep.
  set (p := scriptPathOf host) in *. set (w := appleScriptPathOf p) in *.
  unfold executeInDesignScript, tryCatch, bind. fold p.
  assert (Hw1 : FsPromises.writeFile p (extendScript i o) s
                = Return tt (<[p := Fs.RegularFile (extendScript i o)]> s)).
  { unfold FsPromises.writeFile.
    destruct (s !! p) as [[c|]|]; try reflexivity. congruence. }
  rewrite Hw1. set (s1 := <[p := _]> s).
  unfold runInDesignWithScript. rewrite Hmac, spawnArguments_darwin.
  cbn [String.eqb Ascii.eqb Bool.eqb]. fold w.
  assert (Hs1 : s1 !! w = s !! w) by (apply lookup_insert_ne; congruence).
  assert (Hw2 : FsPromises.writeFile w (appleScriptContent p) s1
                = Return tt (<[w := Fs.RegularFile (appleScriptContent p)]> s1)).
  { unfold FsPromises.writeFile. rewrite Hs1.
    destruct (s !! w) as [[c|]|]; try reflexivity. congruence. }
  rewrite Hw2. set (s2 := <[w := _]> s1).
  unfold awaitChild.
  pose proof (Hkeep "osascript" [w] s2) as Hk.
  destruct (application host "osascript" [w] s2) as [b s3]. cbn in Hk.
  assert (Hs3 : s3 !! w = Some (Fs.RegularFile (appleScriptContent p))).
  { rewrite Hk. apply lookup_insert_eq. }
  pose proof (execute_settles "osascript" b) as Hset.
  destruct (unlink_ignoring_errors p s3) as (s4 & Hun & _ & Hother).
  destruct (Runner.outcome (Runner.execute "osascript" b)) as [|v|e];
    [congruence| |]; rewrite Hun; exists s4.
  - split; [left; reflexivity|]. rewrite Hother; [exact Hs3 | exact Hne].
  - split; [right; eexists; reflexivity|].
    rewrite Hother; [exact Hs3 | exact Hne].
Qed.

End Conversion.

Section ConversionScenarios.

Lemma convert_never_returns_a_missing_pdf_witness :
  (convertInDesignToPDF Scenario.winHost "/work/in/doc.indd" "/work/out"
                        Scenario.disk
   = Return "/work/out/doc.pdf"
       (<["/work/out/doc.pdf" := Fs.RegularFile "%PDF-1.7"]>
          (<["/work/out" := Fs.Dir]> Scenario.disk))
   /\ is_Some
        ((<["/work/out/doc.pdf" := Fs.RegularFile "%PDF-1.7"]>
            (<["/work/out" := Fs.Dir]> Scenario.disk))
           !! "/work/out/doc.pdf"))
  /\ convertInDesignToPDF Scenario.idleHost "/work/in/doc.indd" "/work/out"
                          Scenario.disk
     = Throw (newError "Failed to convert InDesign to PDF: PDF was not generated successfully")
             (<["/work/out" := Fs.Dir]> Scenario.disk).
Proof.
  split.
  - assert (Hret : convertInDesignToPDF Scenario.winHost "/work/in/doc.indd"
                     "/work/out" Scenario.disk
                   = Return "/work/out/doc.pdf"
                       (<["/work/out/doc.pdf" := Fs.RegularFile "%PDF-1.7"]>
                          (<["/work/out" := Fs.Dir]> Scenario.disk)))
      by (vm_compute; reflexivity).
    split; [exact Hret|].
    exact (proj2 (proj1 (convert_never_returns_a_missing_pdf
                           Scenario.winHost "/work/in/doc.indd" "/work/out"
                           Scenario.disk) _ _ Hret)).
  - apply (proj2 (convert_never_returns_a_missing_pdf
                    Scenario.idleHost "/work/in/doc.indd" "/work/out"
                    Scenario.disk)
                 (<["/work/out" := Fs.Dir]> Scenario.disk)
                 (<["/work/out" := Fs.Dir]> Scenario.disk)).
    + exists (Fs.RegularFile "indd"). vm_compute. reflexivity.
    + vm_compute. reflexivity.
    + vm_compute. reflexivity.
    + vm_compute. reflexivity.
Defined.

(** C4, at the failing input: a conversion on macOS.  Whether the run
    succeeds or the script fails, the ExtendScript file is gone when
    [convertInDesignToPDF] settles, but the AppleScript wrapper written
    next to it is still on disk. *)
Theorem wrapper_script_is_left_on_disk :
  (exists s',
      convertInDesignToPDF Scenario.macHost "/work/in/doc.indd" "/work/out"
                           Scenario.disk = Return "/work/out/doc.pdf" s'
      /\ s' !! "/tmp/indesign_export_1730500000000.jsx" = None
      /\ s' !! "/tmp/indesign_export_1730500000000.scpt"
         = Some (Fs.RegularFile
                   (appleScriptContent
                      "/tmp/indesign_export_1730500000000.jsx")))
  /\ (exists s',
         convertInDesignToPDF Scenario.macFailingHost "/work/in/doc.indd"
                              "/work/out" Scenario.disk
         = Throw (newError "Failed to convert InDesign to PDF: InDesign script execution failed: ERROR: export failed") s'
         /\ s' !! "/tmp/indesign_export_1730500000000.jsx" = None
         /\ s' !! "/tmp/indesign_export_1730500000000.scpt"
            = Some (Fs.RegularFile
                      (appleScriptContent
                         "/tmp/indesign_export_1730500000000.jsx"))).
Proof.
  split; eexists; (split; [vm_compute; reflexivity|]);
    split; vm_compute; reflexivity.
Qed.

End ConversionScenarios.

(** ** Platform dispatch *)

Section Dispatch.

Lemma configIndesignAppPath_truthy (envVar : option string) (p : string) :
  configIndesignAppPath envVar = Some p -> JS.truthy p = true.
Proof.
  unfold configIndesignAppPath. destruct envVar as [v|]; [|discriminate].
  destruct (JS.truthy v) eqn:Hv; [|discriminate]. now intros [= <-].
Qed.

(** The first [if] of the executor: the configured path when the
    setting is set, otherwise the default of the platform. *)
Lemma resolveIndesignPath_configured (platform : string)
  (envVar : option string) (p : string) :
  configIndesignAppPath envVar = Some p ->
  resolveIndesignPath platform (configIndesignAppPath envVar) = Some p.
Proof.
  intros Hc. rewrite Hc. unfold resolveIndesignPath.
  now rewrite (configIndesignAppPath_truthy envVar p Hc).
Qed.

(** C7 (as amended): the path taken from the [INDESIGN_APP_PATH]
    setting, with the per-platform default as fallback when it is unset
    or empty, is the binary that is spawned on Windows.  On macOS the
    command spawned is always [osascript] with the wrapper script as its
    only argument, whatever the setting.  On any other platform nothing
    is spawned. *)
Theorem spawned_command_by_platform (envVar : option string)
  (scriptPath : string) :
  spawnArguments "win32" (configIndesignAppPath envVar) scriptPath
  = Some (match configIndesignAppPath envVar with
          | Some p => p
          | None => winDefaultPath
          end, ["-ScriptPath"; scriptPath])
  /\ spawnArguments "darwin" (configIndesignAppPath envVar) scriptPath
     = Some ("osascript", [appleScriptPathOf scriptPath])
  /\ (forall platform,
         platform <> "win32" -> platform <> "darwin" ->
         spawnArguments platform (configIndesignAppPath envVar) scriptPath
         = None).
Proof.
  split; [|split].
  - unfold spawnArguments.
    destruct (configIndesignAppPath envVar) as [p|] eqn:Hc.
    + rewrite <- Hc, (resolveIndesignPath_configured _ _ _ Hc). reflexivity.
    + reflexivity.
  - apply spawnArguments_darwin.
  - intros platform Hwin Hmac. unfold spawnArguments.
    apply String.eqb_neq in Hwin, Hmac.
    destruct (resolveIndesignPath platform (configIndesignAppPath envVar));
      [|reflexivity].
    now rewrite Hmac, Hwin.
Qed.

Lemma spawned_command_by_platform_witness :
  spawnArguments "linux" (configIndesignAppPath (Some "/opt/Adobe/InDesign"))
                 "/tmp/indesign_export_1730500000000.jsx" = None.
Proof.
  apply (proj2 (proj2 (spawned_command_by_platform
                         (Some "/opt/Adobe/InDesign")
                         "/tmp/indesign_export_1730500000000.jsx")) "linux").
  - discriminate.
  - discriminate.
Defined.

(** C7, counterexample: on macOS with [INDESIGN_APP_PATH] set, the
    command that is spawned is not the configured binary. *)
Lemma configured_path_is_not_spawned_on_macOS :
  ~ (exists args,
        spawnArguments (platform Scenario.macHost)
          (configIndesignAppPath (INDESIGN_APP_PATH Scenario.macHost))
          (scriptPathOf Scenario.macHost)
        = Some ("/opt/Adobe/InDesign", args)).
Proof. intros [args H]. vm_compute in H. discriminate H. Qed.

End Dispatch.

(** ** Failure propagation *)

Section Propagation.

(** C8 (as amended): an error thrown inside [convertInDesignToPDF]
    leaves it with the message "Failed to convert InDesign to PDF: "
    followed by the message of the cause.  An error thrown inside
    [extractZipAndFindInDesignFile] leaves it with the message "Failed
    to extract zip file: " followed by the message of the cause, unless
    the message of the cause contains "No InDesign file": such an error
    is thrown again as it is. *)
Theorem failures_are_wrapped_by_phase :
  (forall host i o s s' e,
      convertInDesignToPDF host i o s = Throw e s' ->
      exists cause,
        convertBody host i o s = Throw cause s'
        /\ message e = "Failed to convert InDesign to PDF: " +:+ message cause
        /\ JS.startsWith "Failed to convert InDesign to PDF: " (message e)
           = true
        /\ JS.includes (message cause) (message e) = true)
  /\ (forall zip extractPath e,
         extractZipAndFindInDesignFile zip extractPath = Err e ->
         exists cause,
           extractionTry zip extractPath = Err cause
           /\ JS.includes (message cause) (message e) = true
           /\ ((JS.includes "No InDesign file" (message cause) = true
                /\ e = cause)
               \/ (JS.includes "No InDesign file" (message cause) = false
                   /\ message e
                      = "Failed to extract zip file: " +:+ message cause
                   /\ JS.startsWith "Failed to extract zip file: "
                        (message e) = true))).
Proof.
  split.
  - intros host i o s s' e He.
    destruct (convert_throw_inv host i o s s' e He) as (cause & Hb & ->).
    exists cause. split; [exact Hb|]. unfold conversionError. cbn [message].
    split; [reflexivity|]. split.
    + apply startsWith_append.
    + apply includes_append.
  - intros zip extractPath e. unfold extractZipAndFindInDesignFile.
    destruct (extractionTry zip extractPath) as [r|cause]; [discriminate|].
    unfold extractionCatch.
    destruct (JS.includes "No InDesign file" (message cause)) eqn:Hm;
      intros [= <-]; exists cause; (split; [reflexivity|]).
    + split; [apply includes_refl|]. left. split; [exact Hm | reflexivity].
    + cbn [message newError]. split; [apply includes_append|].
      right. split; [exact Hm|]. split; [reflexivity|].
      apply startsWith_append.
Qed.

Lemma failures_are_wrapped_by_phase_witness :
  (exists cause,
      convertBody Scenario.macFailingHost "/work/in/doc.indd" "/work/out"
                  Scenario.disk
      = Throw cause
          (<["/tmp/indesign_export_1730500000000.scpt" :=
               Fs.RegularFile
                 (appleScriptContent
                    "/tmp/indesign_export_1730500000000.jsx")]>
             (<["/work/out" := Fs.Dir]> Scenario.disk))
      /\ "Failed to convert InDesign to PDF: InDesign script execution failed: ERROR: export failed"
         = "Failed to convert InDesign to PDF: " +:+ message cause)
  /\ (exists cause,
         extractionTry Scenario.corruptZip "/tmp/extracted/job" = Err cause
         /\ JS.includes (message cause)
              "Failed to extract zip file: Invalid or unsupported zip format. No END header found"
            = true).
Proof.
  split.
  - destruct (proj1 failures_are_wrapped_by_phase Scenario.macFailingHost
                "/work/in/doc.indd" "/work/out" Scenario.disk
                (<["/tmp/indesign_export_1730500000000.scpt" :=
                     Fs.RegularFile
                       (appleScriptContent
                          "/tmp/indesign_export_1730500000000.jsx")]>
                   (<["/work/out" := Fs.Dir]> Scenario.disk))
                (newError "Failed to convert InDesign to PDF: InDesign script execution failed: ERROR: export failed"))
      as (cause & Hb & Hm & _).
    + vm_compute. reflexivity.
    + exists cause. split; [exact Hb | exact Hm].
  - destruct (proj2 failures_are_wrapped_by_phase Scenario.corruptZip
                "/tmp/extracted/job"
                (newError "Failed to extract zip file: Invalid or unsupported zip format. No END header found"))
      as (cause & Hb & Hm & _).
    + vm_compute. reflexivity.
    + exists cause. split; [exact Hb | exact Hm].
Defined.

(** C8, counterexample: for an archive without a document the error
    that leaves the extraction step does not begin with the prefix of
    the phase. *)
Lemma not_found_error_is_not_wrapped :
  ~ (forall e,
        extractZipAndFindInDesignFile (Extracted (inr Scenario.fontsOnly))
                                      "/tmp/extracted/job" = Err e ->
        JS.startsWith "Failed to extract zip file: " (message e) = true).
Proof.
  intros H. specialize (H notFoundError).
  assert (Hrun : extractZipAndFindInDesignFile
                   (Extracted (inr Scenario.fontsOnly)) "/tmp/extracted/job"
                 = Err notFoundError) by (vm_compute; reflexivity).
  specialize (H Hrun). vm_compute in H. discriminate H.
Qed.

End Propagation.

(** ** The generated script *)

Section Script.

Lemma includes_chr_nil (c : ascii) :
  JS.includes (JS.chr c) EmptyString = false.
Proof. reflexivity. Qed.

Lemma includes_chr_cons (c d : ascii) (s : string) :
  JS.includes (JS.chr c) (String d s)
  = Ascii.eqb c d || JS.includes (JS.chr c) s.
Proof.
  cbn [JS.includes JS.chr String.prefix].
  destruct (ascii_dec c d) as [->|Hne].
  - rewrite Ascii.eqb_refl. now destruct s.
  - apply Ascii.eqb_neq in Hne. now rewrite Hne.
Qed.

Lemma includes_chr_append (c : ascii) (a b : string) :
  JS.includes (JS.chr c) (a +:+ b)
  = JS.includes (JS.chr c) a || JS.includes (JS.chr c) b.
Proof.
  induction a as [|d a IH]; [reflexivity|].
  change (String d a +:+ b) with (String d (a +:+ b)).
  rewrite !includes_chr_cons, IH.
  now rewrite orb_assoc.
Qed.

Lemma includes_chr_join (c : ascii) (sep : string) (l : list string) :
  JS.includes (JS.chr c) sep = false ->
  forallb (fun line => negb (JS.includes (JS.chr c) line)) l = true ->
  JS.includes (JS.chr c) (JS.join sep l) = false.
Proof.
  intros Hsep. induction l as [|x l IH]; [reflexivity|].
  cbn [forallb]. intros [Hx Hl]%andb_true_iff.
  apply negb_true_iff in Hx.
  destruct l as [|y l]; [exact Hx|].
  change (JS.join sep (x :: y :: l)) with (x +:+ sep +:+ JS.join sep (y :: l)).
  rewrite !includes_chr_append, Hx, Hsep, (IH Hl). reflexivity.
Qed.

(** No backslash is left in a path after the replacement. *)
Lemma replaceBackslashes_clean (p : string) :
  JS.includes (JS.chr JS.backslash) (JS.replaceBackslashes p) = false.
Proof.
  induction p as [|c p IH]; [reflexivity|].
  cbn [JS.replaceBackslashes]. rewrite includes_chr_cons, IH, orb_false_r.
  destruct (Ascii.eqb c JS.backslash) eqn:Hc; [reflexivity|].
  rewrite Ascii.eqb_sym. exact Hc.
Qed.

Lemma quoted_path_clean (before p after : string) :
  JS.includes (JS.chr JS.backslash) before = false ->
  JS.includes (JS.chr JS.backslash) after = false ->
  negb (JS.includes (JS.chr JS.backslash)
          (before +:+ quoted (JS.replaceBackslashes p) +:+ after)) = true.
Proof.
  intros Hb Ha. unfold quoted.
  rewrite !includes_chr_append, Hb, Ha, replaceBackslashes_clean.
  reflexivity.
Qed.

(** C6: the script text is determined by the two paths alone, and
    no backslash occurs in either substituted path nor anywhere else in
    the generated script. *)
Theorem script_is_pure_and_free_of_backslashes :
  (forall i o i' o',
      i = i' -> o = o' -> extendScript i o = extendScript i' o')
  /\ (forall i o,
         JS.includes (JS.chr JS.backslash) (JS.replaceBackslashes i) = false
         /\ JS.includes (JS.chr JS.backslash) (JS.replaceBackslashes o)
            = false
         /\ JS.includes (JS.chr JS.backslash) (extendScript i o) = false).
Proof.
  split.
  - intros i o i' o' -> ->. reflexivity.
  - intros i o. split; [apply replaceBackslashes_clean|].
    split; [apply replaceBackslashes_clean|].
    unfold extendScript. apply includes_chr_join; [reflexivity|].
    rewrite !forallb_app. cbn [forallb].
    rewrite !quoted_path_clean by reflexivity.
    vm_compute. reflexivity.
Qed.

Lemma script_is_pure_and_free_of_backslashes_witness :
  extendScript "C:\jobs\in\doc.indd" "C:\jobs\out\doc.pdf"
  = extendScript ("C:\jobs\in" +:+ "\doc.indd")
                 ("C:\jobs\out" +:+ "\doc.pdf")
  /\ JS.replaceBackslashes "C:\jobs\in\doc.indd" = "C:/jobs/in/doc.indd".
Proof.
  split.
  - apply (proj1 script_is_pure_and_free_of_backslashes); reflexivity.
  - reflexivity.
Defined.

End Script.

(** ** The locator *)

Section Locator.

(** Induction on a directory tree, with the hypothesis available for
    every entry of a directory. *)
Lemma entry_tree_ind (P : entry -> Prop) :
  (forall name, P (FileEntry name)) ->
  (forall name entries, Forall P entries -> P (DirEntry name entries)) ->
  (forall name error, P (UnreadableDirEntry name error)) ->
  (forall name, P (OtherEntry name)) ->
  forall e, P e.
Proof.
  intros Hfile Hdir Hunreadable Hother.
  fix IH 1. intros [name|name entries|name error|name].
  - apply Hfile.
  - apply Hdir. induction entries as [|x entries IHentries].
    + constructor.
    + constructor; [apply IH | exact IHentries].
  - apply Hunreadable.
  - apply Hother.
Qed.

Lemma normalize_nonempty (p : string) : Path.normalize p <> EmptyString.
Proof.
  unfold Path.normalize.
  destruct (String.eqb p EmptyString); [discriminate|].
  destruct (String.eqb (Path.normalizeString p _) EmptyString) eqn:Hbody.
  - destruct (JS.startsWith "/" p); [discriminate|].
    destruct (bool_decide _); discriminate.
  - apply String.eqb_neq in Hbody.
    destruct (JS.startsWith "/" p); [discriminate|].
    destruct (bool_decide _); [|exact Hbody].
    now apply append_nonempty_l.
Qed.

(** [path.join] never yields the empty string, so a path it returns
    is truthy. *)
Lemma join_truthy (a b : string) : JS.truthy (Path.join a b) = true.
Proof.
  apply truthy_nonempty. unfold Path.join, Path.joinAll.
  destruct (filter _ _); [discriminate | apply normalize_nonempty].
Qed.

Lemma find_app {A} (f : A -> bool) (l1 l2 : list A) :
  List.find f (l1 ++ l2)
  = match List.find f l1 with
    | Some x => Some x
    | None => List.find f l2
    end.
Proof.
  induction l1 as [|x l1 IH]; [reflexivity|].
  cbn. destruct (f x); [reflexivity | exact IH].
Qed.

(** The loop inside [visitEntry] is [scanEntries]. *)
Lemma visitEntry_dir (dirPath name : string) (entries : list entry) :
  visitEntry dirPath (DirEntry name entries)
  = if isSystemDirectory name then Ok None
    else
      match scanEntries (Path.join dirPath name) entries with
      | Ok (Some p) => if JS.truthy p then Ok (Some p) else Ok None
      | Ok None => Ok None
      | Err err => Err (searchError err)
      end.
Proof.
  cbn [visitEntry entryName].
  destruct (isSystemDirectory name); [reflexivity|].
  set (fullPath := Path.join dirPath name).
  assert (Hloop : forall es,
             (fix loop (es : list entry) : result (option string) :=
                match es with
                | [] => Ok None
                | x :: rest =>
                    match visitEntry fullPath x with
                    | Ok (Some p) => Ok (Some p)
                    | Ok None => loop rest
                    | Err err => Err err
                    end
                end) es = scanEntries fullPath es).
  { induction es as [|x es IHes]; [reflexivity|].
    cbn [scanEntries]. rewrite IHes. reflexivity. }
  rewrite Hloop.
  destruct (scanEntries fullPath entries) as [[p|]|err]; reflexivity.
Qed.

(** Every path of the traversal is truthy. *)
Lemma filesOfEntry_truthy (e : entry) :
  forall dirPath,
    Forall (fun pn => JS.truthy pn.1 = true) (filesOfEntry dirPath e).
Proof.
  induction e as [name|name entries IH|name error|name] using entry_tree_ind;
    intros dirPath; cbn [filesOfEntry entryName].
  - constructor; [apply join_truthy | constructor].
  - destruct (isSystemDirectory name); [constructor|].
    generalize (Path.join dirPath name). intros d.
    induction IH as [|x entries Hx _ IHentries]; cbn [flat_map].
    + constructor.
    + apply Forall_app. split; [apply Hx | exact IHentries].
  - constructor.
  - constructor.
Qed.

Lemma first_match_truthy (files : list (string * string)) (pn : string * string) :
  Forall (fun pn => JS.truthy pn.1 = true) files ->
  List.find (fun pn => hasInDesignExtension pn.2) files = Some pn ->
  JS.truthy pn.1 = true.
Proof.
  intros Hall Hfind. apply find_some in Hfind as [Hin _].
  rewrite Forall_forall in Hall. apply Hall.
  now apply list_elem_of_In.
Qed.

(** The loop over readable entries finds the first match of the
    traversal, given that each entry does. *)
Lemma scanEntries_first (entries : list entry) :
  Forall (fun e => readable e = true ->
                   forall dirPath,
                     visitEntry dirPath e
                     = Ok (option_map fst
                             (List.find (fun pn => hasInDesignExtension pn.2)
                                        (filesOfEntry dirPath e))))
         entries ->
  forallb readable entries = true ->
  forall dirPath,
    scanEntries dirPath entries = Ok (firstInDesignFile dirPath entries).
Proof.
  unfold firstInDesignFile, filesDepthFirst.
  induction 1 as [|x entries Hx _ IH]; intros Hread dirPath;
    [reflexivity|].
  cbn [forallb] in Hread. apply andb_true_iff in Hread as [Hrx Hrest].
  cbn [scanEntries flat_map]. rewrite (Hx Hrx dirPath), find_app.
  destruct (List.find _ (filesOfEntry dirPath x)) as [pn|];
    [reflexivity|].
  cbn [option_map]. apply IH, Hrest.
Qed.

Lemma filesDepthFirst_truthy (dirPath : string) (entries : list entry) :
  Forall (fun pn => JS.truthy pn.1 = true) (filesDepthFirst dirPath entries).
Proof.
  unfold filesDepthFirst.
  induction entries as [|x entries IH]; cbn [flat_map]; [constructor|].
  apply Forall_app. split; [apply filesOfEntry_truthy | exact IH].
Qed.

Lemma visitEntry_first (e : entry) :
  readable e = true ->
  forall dirPath,
    visitEntry dirPath e
    = Ok (option_map fst
            (List.find (fun pn => hasInDesignExtension pn.2)
                       (filesOfEntry dirPath e))).
Proof.
  induction e as [name|name entries IH|name error|name] using entry_tree_ind;
    intros Hread dirPath.
  - cbn [visitEntry filesOfEntry entryName List.find snd].
    destruct (hasInDesignExtension name); reflexivity.
  - rewrite visitEntry_dir. cbn [filesOfEntry entryName].
    destruct (isSystemDirectory name); [reflexivity|].
    cbn [readable] in Hread.
    rewrite (scanEntries_first entries IH Hread).
    unfold firstInDesignFile, filesDepthFirst.
    destruct (List.find _ _) as [pn|] eqn:Hfind; [|reflexivity].
    cbn [option_map].
    rewrite (first_match_truthy _ pn (filesDepthFirst_truthy _ _) Hfind).
    reflexivity.
  - discriminate Hread.
  - reflexivity.
Qed.

(** A tree that holds no InDesign file anywhere has none in the
    traversal. *)
Lemma no_file_no_match (e : entry) :
  containsInDesignFile e = false ->
  forall dirPath,
    List.find (fun pn => hasInDesignExtension pn.2) (filesOfEntry dirPath e)
    = None.
Proof.
  induction e as [name|name entries IH|name error|name] using entry_tree_ind;
    intros Hnone dirPath; cbn [filesOfEntry entryName].
  - cbn [containsInDesignFile] in Hnone. cbn. now rewrite Hnone.
  - destruct (isSystemDirectory name); [reflexivity|].
    cbn [containsInDesignFile] in Hnone.
    generalize (Path.join dirPath name). intros d.
    induction IH as [|x entries Hx _ IHentries]; [reflexivity|].
    cbn [existsb] in Hnone. apply orb_false_iff in Hnone as [Hx0 Hrest].
    cbn [flat_map]. rewrite find_app, (Hx Hx0). apply IHentries, Hrest.
  - reflexivity.
  - reflexivity.
Qed.

Lemma no_file_no_first (dirPath : string) (entries : list entry) :
  existsb containsInDesignFile entries = false ->
  firstInDesignFile dirPath entries = None.
Proof.
  unfold firstInDesignFile, filesDepthFirst.
  induction entries as [|x entries IH]; [reflexivity|].
  cbn [existsb flat_map]. intros [Hx Hrest]%orb_false_iff.
  rewrite find_app, (no_file_no_match x Hx). apply IH, Hrest.
Qed.

(** C5: on a tree whose directories can all be enumerated, the
    locator returns the path of the first file, in depth-first order and
    without descending into a directory whose name begins with a dot or
    is [__MACOSX], whose extension is [.indd] or [.idml]; when there is
    none the extraction step fails with the error whose message contains
    "No InDesign file", and so it does for every tree that holds no such
    file at all. *)
Theorem locator_returns_first_match (dirPath : string)
  (entries : list entry) :
  forallb readable entries = true ->
  findInDesignFile dirPath (inr entries)
  = Ok (firstInDesignFile dirPath entries)
  /\ extractZipAndFindInDesignFile (Extracted (inr entries)) dirPath
     = match firstInDesignFile dirPath entries with
       | Some p => Ok (mkLocated p dirPath)
       | None => Err notFoundError
       end
  /\ JS.includes "No InDesign file" (message notFoundError) = true
  /\ (existsb containsInDesignFile entries = false ->
      extractZipAndFindInDesignFile (Extracted (inr entries)) dirPath
      = Err notFoundError).
Proof.
  intros Hread.
  assert (Hscan : scanEntries dirPath entries
                  = Ok (firstInDesignFile dirPath entries)).
  { apply scanEntries_first; [|exact Hread].
    apply Forall_forall. intros e _. apply visitEntry_first. }
  assert (Hfind : findInDesignFile dirPath (inr entries)
                  = Ok (firstInDesignFile dirPath entries)).
  { unfold findInDesignFile. now rewrite Hscan. }
  assert (Hextract :
           extractZipAndFindInDesignFile (Extracted (inr entries)) dirPath
           = match firstInDesignFile dirPath entries with
             | Some p => Ok (mkLocated p dirPath)
             | None => Err notFoundError
             end).
  { unfold extractZipAndFindInDesignFile, extractionTry. rewrite Hfind.
    unfold firstInDesignFile.
    destruct (List.find _ _) as [pn|] eqn:Hpn; cbn [option_map].
    - rewrite (first_match_truthy _ pn (filesDepthFirst_truthy _ _) Hpn).
      reflexivity.
    - reflexivity. }
  split; [exact Hfind|]. split; [exact Hextract|].
  split; [reflexivity|].
  intros Hnone. rewrite Hextract, (no_file_no_first dirPath entries Hnone).
  reflexivity.
Qed.

End Locator.

Section Extname.

Import Path.

(** Past the extension: characters other than [/] and [.] leave the
    scan state as it is once [end] is set and no dot has been seen. *)
Lemma extname_loop_extension (l rest : list ascii) :
  forallb (fun c => negb (Ascii.eqb c JS.slash) && negb (Ascii.eqb c JS.dot)) l
  = true ->
  forall i st,
    end_ st <> -1 -> startDot st = -1 ->
    extname_loop (l ++ rest) i st
    = extname_loop rest (i - Z.of_nat (List.length l)) st.
Proof.
  induction l as [|c l IH]; intros Hplain i st Hend Hdot.
  - cbn [app List.length]. f_equal. lia.
  - cbn [forallb] in Hplain.
    apply andb_true_iff in Hplain as [Hc Hl].
    apply andb_true_iff in Hc as [Hslash Hnodot].
    apply negb_true_iff in Hslash, Hnodot.
    cbn [app extname_loop]. rewrite Hslash, Hnodot.
    apply Z.eqb_neq in Hend. rewrite Hend, Hdot. cbn [Z.eqb Pos.eqb negb].
    apply Z.eqb_neq in Hend.
    rewrite (IH Hl (i - 1) st Hend Hdot). f_equal.
    rewrite length_cons. lia.
Qed.

(** Before the dot: characters other than [/] only move
    [preDotState], and away from 0 as soon as there is one. *)
Lemma extname_loop_stem (l : list ascii) :
  forallb (fun c => negb (Ascii.eqb c JS.slash)) l = true ->
  forall i st,
    end_ st <> -1 -> startDot st <> -1 ->
    exists pd,
      extname_loop l i st
      = ExtState (startDot st) (startPart st) (end_ st) (matchedSlash st) pd
      /\ (l = [] -> pd = preDotState st)
      /\ (l <> [] -> pd = 1 \/ pd = -1).
Proof.
  induction l as [|c l IH]; intros Hplain i st Hend Hdot.
  - exists (preDotState st). destruct st. cbn. split; [reflexivity|].
    split; [reflexivity | congruence].
  - cbn [forallb] in Hplain. apply andb_true_iff in Hplain as [Hslash Hl].
    apply negb_true_iff in Hslash.
    cbn [extname_loop]. rewrite Hslash.
    apply Z.eqb_neq in Hend, Hdot. rewrite Hend, Hdot. cbn [negb].
    apply Z.eqb_neq in Hend, Hdot.
    match goal with
    | |- exists pd, extname_loop l (i - 1) ?s = _ /\ _ =>
        assert (Hs : startDot s = startDot st /\ startPart s = startPart st
                     /\ end_ s = end_ st /\ matchedSlash s = matchedSlash st
                     /\ (preDotState s = 1 \/ preDotState s = -1));
        [|destruct Hs as (Hs1 & Hs2 & Hs3 & Hs4 & Hs5);
          destruct (IH Hl (i - 1) s) as (pd & Hrun & Hnil & Hcons);
          [congruence | congruence |];
          exists pd; rewrite Hrun, Hs1, Hs2, Hs3, Hs4;
          split; [reflexivity|]; split; [discriminate|]; intros _;
          destruct l as [|c' l']; [rewrite (Hnil eq_refl); exact Hs5
                                  | apply Hcons; discriminate]]
    end.
    destruct (Ascii.eqb c JS.dot).
    + destruct (preDotState st =? 1) eqn:Hpd; cbn [negb];
        cbn [startDot startPart end_ matchedSlash preDotState].
      * apply Z.eqb_eq in Hpd. repeat split; auto.
      * repeat split; auto.
    + cbn [startDot startPart end_ matchedSlash preDotState].
      repeat split; auto.
Qed.

(** The first character met by the scan, when it is neither [/] nor
    [.], sets [end]. *)
Lemma extname_loop_first (c : ascii) (rest : list ascii) (i : Z) :
  Ascii.eqb c JS.slash = false -> Ascii.eqb c JS.dot = false ->
  extname_loop (c :: rest) i (ExtState (-1) 0 (-1) true 0)
  = extname_loop rest (i - 1) (ExtState (-1) 0 (i + 1) false 0).
Proof. intros Hslash Hnodot. cbn [extname_loop]. now rewrite Hslash, Hnodot. Qed.

(** The last dot of the name sets [startDot]. *)
Lemma extname_loop_dot (rest : list ascii) (i sp e pd : Z) (ms : bool) :
  e <> -1 ->
  extname_loop (JS.dot :: rest) i (ExtState (-1) sp e ms pd)
  = extname_loop rest (i - 1) (ExtState i sp e ms pd).
Proof.
  intros He. apply Z.eqb_neq in He. cbn [extname_loop].
  replace (Ascii.eqb JS.dot JS.slash) with false by reflexivity.
  replace (Ascii.eqb JS.dot JS.dot) with true by reflexivity.
  cbn [end_]. rewrite He. reflexivity.
Qed.

Lemma list_ascii_of_string_append (a b : string) :
  list_ascii_of_string (a +:+ b)
  = (list_ascii_of_string a ++ list_ascii_of_string b)%list.
Proof.
  induction a as [|c a IH]; [reflexivity|].
  change (String c a +:+ b) with (String c (a +:+ b)).
  cbn [list_ascii_of_string]. now rewrite IH.
Qed.

Lemma string_length_list (s : string) :
  String.length s = List.length (list_ascii_of_string s).
Proof. induction s as [|c s IH]; [reflexivity|]. cbn. now rewrite IH. Qed.

Lemma string_length_append (a b : string) :
  String.length (a +:+ b) = (String.length a + String.length b)%nat.
Proof.
  induction a as [|c a IH]; [reflexivity|].
  change (String c a +:+ b) with (String c (a +:+ b)). cbn. now rewrite IH.
Qed.

Lemma substring_whole (s : string) :
  String.substring 0 (String.length s) s = s.
Proof. induction s as [|c s IH]; [reflexivity|]. cbn. now rewrite IH. Qed.

Lemma substring_skip (a b : string) (n : nat) :
  String.substring (String.length a) n (a +:+ b) = String.substring 0 n b.
Proof.
  induction a as [|c a IH]; [reflexivity|].
  change (String c a +:+ b) with (String c (a +:+ b)). cbn. exact IH.
Qed.

(** The extension of [stem.ext]: for a stem that is not empty and has
    no [/], and an extension of at least one character without [/] or
    [.], [path.extname] returns the dot and the extension. *)
Lemma extname_stem_dot_ext (stem ext : string) :
  stem <> EmptyString ->
  forallb (fun c => negb (Ascii.eqb c JS.slash)) (list_ascii_of_string stem)
  = true ->
  ext <> EmptyString ->
  forallb (fun c => negb (Ascii.eqb c JS.slash) && negb (Ascii.eqb c JS.dot))
          (list_ascii_of_string ext) = true ->
  extname (stem +:+ String JS.dot ext) = String JS.dot ext.
Proof.
  intros Hstem Hstem_plain Hext Hext_plain.
  unfold extname.
  rewrite list_ascii_of_string_append. cbn [list_ascii_of_string].
  rewrite rev_app_distr. cbn [rev]. rewrite <- !app_assoc. cbn [app].
  rewrite string_length_append. cbn [String.length].
  set (n := String.length stem). set (m := String.length ext).
  assert (Hm : (0 < m)%nat).
  { subst m. destruct ext; [congruence | cbn; lia]. }
  (* the last character of the extension sets [end] *)
  destruct (rev (list_ascii_of_string ext)) as [|c l] eqn:Hrev.
  { apply (f_equal (@List.length ascii)) in Hrev.
    rewrite length_rev, <- string_length_list in Hrev. fold m in Hrev.
    cbn in Hrev. lia. }
  assert (Hrev_plain :
           forallb (fun c => negb (Ascii.eqb c JS.slash)
                             && negb (Ascii.eqb c JS.dot)) (c :: l) = true).
  { rewrite <- Hrev. rewrite forallb_forall in *. intros x Hx.
    apply Hext_plain. now apply in_rev. }
  assert (Hlen : S (List.length l) = m).
  { apply (f_equal (@List.length ascii)) in Hrev.
    rewrite length_rev, <- string_length_list in Hrev. exact (eq_sym Hrev). }
  cbn [forallb] in Hrev_plain.
  apply andb_true_iff in Hrev_plain as [Hc Hl].
  apply andb_true_iff in Hc as [Hslash Hnodot].
  apply negb_true_iff in Hslash, Hnodot.
  cbn [app]. rewrite (extname_loop_first c _ _ Hslash Hnodot).
  rewrite (extname_loop_extension l _ Hl); [|cbn; lia|reflexivity].
  rewrite extname_loop_dot by lia.
  match goal with
  | |- context [extname_loop (rev (list_ascii_of_string stem)) ?i ?s] =>
      destruct (extname_loop_stem (rev (list_ascii_of_string stem))
                  ltac:(rewrite forallb_forall in *; intros x Hx;
                        apply Hstem_plain; now apply in_rev)
                  i s) as (pd & Hrun & _ & Hpd);
      [cbn; lia | cbn; lia | rewrite Hrun]
  end.
  cbn [startDot end_ matchedSlash preDotState startPart].
  assert (Hpd' : pd = 1 \/ pd = -1).
  { apply Hpd. intros Hnil. apply (f_equal (@List.length ascii)) in Hnil.
    rewrite length_rev, <- string_length_list in Hnil.
    destruct stem; [congruence | discriminate Hnil]. }
  assert (Hidx : Z.of_nat (n + S m) - 1 - 1 - Z.of_nat (List.length l)
                 = Z.of_nat n) by lia.
  rewrite Hidx.
  replace (Z.of_nat n =? -1) with false by (symmetry; apply Z.eqb_neq; lia).
  replace (Z.of_nat (n + S m) - 1 + 1 =? -1) with false
    by (symmetry; apply Z.eqb_neq; lia).
  replace (pd =? 0) with false
    by (symmetry; apply Z.eqb_neq; destruct Hpd'; lia).
  replace (Z.of_nat n =? Z.of_nat (n + S m) - 1 + 1 - 1) with false
    by (symmetry; apply Z.eqb_neq; lia).
  rewrite andb_false_r. cbn [orb andb].
  unfold JS.slice.
  replace (Z.to_nat (Z.of_nat (n + S m) - 1 + 1 - Z.of_nat n)) with (S m)
    by lia.
  rewrite Nat2Z.id. subst n.
  rewrite substring_skip.
  change (S m) with (String.length (String JS.dot ext)).
  apply substring_whole.
Qed.

End Extname.

(** ** Case of the extension *)

Section CaseFolding.

Lemma lowerChar_upperChar (c : ascii) :
  JS.lowerChar (upperChar c) = JS.lowerChar c.
Proof.
  destruct c as [[] [] [] [] [] [] [] []]; vm_compute; reflexivity.
Qed.

(** Lower-casing undoes any capitalization. *)
Lemma toLowerCase_capitalization (s x : string) :
  isCapitalizationOf s x = true -> JS.toLowerCase x = JS.toLowerCase s.
Proof.
  revert x. induction s as [|a s IH]; intros [|b x]; try discriminate;
    [reflexivity|].
  cbn [isCapitalizationOf JS.toLowerCase].
  intros [Hb Hrest]%andb_true_iff. rewrite (IH x Hrest). f_equal.
  apply orb_true_iff in Hb as [Hb|Hb]; apply Ascii.eqb_eq in Hb; subst b;
    [reflexivity | apply lowerChar_upperChar].
Qed.

Lemma upperChar_plain (a : ascii) :
  negb (Ascii.eqb a JS.slash) && negb (Ascii.eqb a JS.dot) = true ->
  negb (Ascii.eqb (upperChar a) JS.slash)
  && negb (Ascii.eqb (upperChar a) JS.dot) = true.
Proof.
  destruct a as [[] [] [] [] [] [] [] []]; vm_compute; intros H;
    first [exact H | reflexivity].
Qed.

(** A capitalization of a name without [/] or [.] has neither. *)
Lemma capitalization_plain (s x : string) :
  isCapitalizationOf s x = true ->
  forallb (fun c => negb (Ascii.eqb c JS.slash) && negb (Ascii.eqb c JS.dot))
          (list_ascii_of_string s) = true ->
  forallb (fun c => negb (Ascii.eqb c JS.slash) && negb (Ascii.eqb c JS.dot))
          (list_ascii_of_string x) = true.
Proof.
  revert x. induction s as [|a s IH]; intros [|b x]; try discriminate;
    [reflexivity|].
  cbn [isCapitalizationOf list_ascii_of_string forallb].
  intros [Hb Hrest]%andb_true_iff [Ha Hs]%andb_true_iff.
  rewrite (IH x Hrest Hs), andb_true_r.
  apply orb_true_iff in Hb as [Hb|Hb]; apply Ascii.eqb_eq in Hb; subst b;
    [exact Ha | now apply upperChar_plain].
Qed.

(** A capitalization of [.indd] or [.idml] is a dot followed by
    letters. *)
Lemma capitalized_extension_shape (ext : string) :
  isCapitalizationOf ".indd" ext = true
  \/ isCapitalizationOf ".idml" ext = true ->
  exists letters,
    ext = String JS.dot letters
    /\ letters <> EmptyString
    /\ forallb (fun c => negb (Ascii.eqb c JS.slash)
                         && negb (Ascii.eqb c JS.dot))
               (list_ascii_of_string letters) = true.
Proof.
  intros Hcap. destruct ext as [|b letters].
  { destruct Hcap as [H|H]; discriminate H. }
  exists letters.
  assert (Hb : b = JS.dot).
  { destruct Hcap as [H|H]; cbn [isCapitalizationOf] in H;
      apply andb_true_iff in H as [H _];
      apply orb_true_iff in H as [H|H]; apply Ascii.eqb_eq in H; exact H. }
  assert (Hletters : isCapitalizationOf "indd" letters = true
                     \/ isCapitalizationOf "idml" letters = true).
  { destruct Hcap as [H|H]; cbn [isCapitalizationOf] in H;
      apply andb_true_iff in H as [_ H]; [left | right]; exact H. }
  split; [now rewrite Hb|]. split.
  - destruct letters; [destruct Hletters as [H|H]; discriminate H | discriminate].
  - destruct Hletters as [H|H];
      apply (capitalization_plain _ _ H); reflexivity.
Qed.

(** C10: a file whose extension is any capitalization of [.indd] or
    [.idml] passes the extension test, and the loop of the locator
    returns its path; and every name made of a stem and such an
    extension has that extension. *)
Theorem extension_match_ignores_case :
  (forall name,
      isCapitalizationOf ".indd" (Path.extname name) = true
      \/ isCapitalizationOf ".idml" (Path.extname name) = true ->
      hasInDesignExtension name = true
      /\ (forall dirPath,
             visitEntry dirPath (FileEntry name)
             = Ok (Some (Path.join dirPath name)))
      /\ (forall dirPath rest,
             findInDesignFile dirPath (inr (FileEntry name :: rest))
             = Ok (Some (Path.join dirPath name))))
  /\ (forall stem ext,
         stem <> EmptyString ->
         forallb (fun c => negb (Ascii.eqb c JS.slash))
                 (list_ascii_of_string stem) = true ->
         isCapitalizationOf ".indd" ext = true
         \/ isCapitalizationOf ".idml" ext = true ->
         Path.extname (stem +:+ ext) = ext
         /\ hasInDesignExtension (stem +:+ ext) = true).
Proof.
  assert (Hacc : forall name,
             isCapitalizationOf ".indd" (Path.extname name) = true
             \/ isCapitalizationOf ".idml" (Path.extname name) = true ->
             hasInDesignExtension name = true).
  { intros name Hcap. unfold hasInDesignExtension.
    destruct Hcap as [Hcap|Hcap];
      rewrite (toLowerCase_capitalization _ _ Hcap); reflexivity. }
  split.
  - intros name Hcap. pose proof (Hacc name Hcap) as Hname.
    assert (Hvisit : forall dirPath,
               visitEntry dirPath (FileEntry name)
               = Ok (Some (Path.join dirPath name))).
    { intros dirPath. cbn [visitEntry entryName]. now rewrite Hname. }
    split; [exact Hname|]. split; [exact Hvisit|].
    intros dirPath rest. unfold findInDesignFile. cbn [scanEntries].
    now rewrite Hvisit.
  - intros stem ext Hstem Hplain Hcap.
    destruct (capitalized_extension_shape ext Hcap)
      as (letters & -> & Hletters & Hletters_plain).
    assert (Hext : Path.extname (stem +:+ String JS.dot letters)
                   = String JS.dot letters)
      by now apply extname_stem_dot_ext.
    split; [exact Hext|]. apply Hacc. now rewrite Hext.
Qed.

Lemma extension_match_ignores_case_witness :
  (isCapitalizationOf ".indd" (Path.extname "Brochure.INDD") = true
   /\ hasInDesignExtension "Brochure.INDD" = true)
  /\ (isCapitalizationOf ".idml" ".IdMl" = true
      /\ Path.extname ("Cover v2" +:+ ".IdMl") = ".IdMl"
      /\ hasInDesignExtension ("Cover v2" +:+ ".IdMl") = true).
Proof.
  split.
  - assert (Hcap : isCapitalizationOf ".indd" (Path.extname "Brochure.INDD")
                   = true) by reflexivity.
    split; [exact Hcap|].
    exact (proj1 (proj1 extension_match_ignores_case "Brochure.INDD"
                        (or_introl Hcap))).
  - assert (Hcap : isCapitalizationOf ".idml" ".IdMl" = true) by reflexivity.
    split; [exact Hcap|].
    apply (proj2 extension_match_ignores_case "Cover v2" ".IdMl").
    + discriminate.
    + reflexivity.
    + right. exact Hcap.
Defined.

End CaseFolding.

Section LocatorScenarios.

Lemma locator_returns_first_match_witness :
  (forallb readable Scenario.archive = true
   /\ findInDesignFile "/tmp/extracted/job" (inr Scenario.archive)
      = Ok (Some "/tmp/extracted/job/job/Brochure.INDD"))
  /\ (existsb containsInDesignFile Scenario.fontsOnly = false
      /\ extractZipAndFindInDesignFile (Extracted (inr Scenario.fontsOnly))
                                       "/tmp/extracted/job"
         = Err notFoundError).
Proof.
  split.
  - assert (Hread : forallb readable Scenario.archive = true)
      by reflexivity.
    split; [exact Hread|].
    exact (eq_trans
             (proj1 (locator_returns_first_match "/tmp/extracted/job"
                       Scenario.archive Hread))
             eq_refl).
  - assert (Hnone : existsb containsInDesignFile Scenario.fontsOnly = false)
      by reflexivity.
    split; [exact Hnone|].
    exact (proj2 (proj2 (proj2
             (locator_returns_first_match "/tmp/extracted/job"
                Scenario.fontsOnly eq_refl))) Hnone).
Defined.

End LocatorScenarios.

(** ** The process runner: settling, signals and output *)

Section RunnerCoverage.

Import Runner.

Variable indesignPath : string.

Ltac open_state st :=
  destruct st as [out err res oc tmo grc alv kil sigs];
  unfold signalling, onTimeout, onGraceTimer, onClose, onError,
    onStdout, onStderr, ended, reject, resolve, settle, kill, clearTimeout,
    setResolved, setGraceTimer in *;
  cbn [stdout stderr isResolved outcome timeout graceTimer alive killed
       signals negb] in *.

Lemma settled_onTimeout (now : Z) (st : state) :
  outcome st <> Unsettled -> outcome (onTimeout now st) = outcome st.
Proof.
  open_state st. intros Hs.
  destruct res; cbn; [reflexivity|].
  destruct alv; cbn; destruct oc; cbn; congruence.
Qed.

Lemma settled_advance (now : Z) (st : state) :
  outcome st <> Unsettled -> outcome (advance now st) = outcome st.
Proof.
  intros Hs. unfold advance, fireGraceTimer, fireTimeout.
  assert (H1 : outcome (match timeout st with
                        | Some deadline =>
                            if deadline <=? now then onTimeout deadline st
                            else st
                        | None => st
                        end) = outcome st).
  { destruct (timeout st) as [d|]; [|reflexivity].
    destruct (d <=? now); [now apply settled_onTimeout | reflexivity]. }
  destruct (graceTimer _) as [g|]; [|exact H1].
  destruct (g <=? now); [|exact H1].
  now rewrite outcome_onGraceTimer.
Qed.

Lemma settled_handle (ev : childEvent) (st : state) :
  outcome st <> Unsettled -> outcome (handle indesignPath ev st) = outcome st.
Proof.
  intros Hs. destruct ev; unfold handle; open_state st; try reflexivity.
  - destruct oc; cbn; congruence.
  - destruct (_ || _); destruct oc; cbn; congruence.
Qed.

Lemma settled_run (tr : trace) (st : state) :
  outcome st <> Unsettled -> outcome (run indesignPath tr st) = outcome st.
Proof.
  revert st. induction tr as [|tev tr IH]; intros st Hs; [reflexivity|].
  assert (H1 : outcome (step indesignPath st tev) = outcome st).
  { unfold step. rewrite settled_handle; rewrite settled_advance; congruence. }
  change (run indesignPath (tev :: tr) st)
    with (run indesignPath tr (step indesignPath st tev)).
  rewrite IH; congruence.
Qed.

Lemma settled_drain (st : state) :
  outcome st <> Unsettled -> outcome (drain st) = outcome st.
Proof.
  intros Hs. unfold drain.
  assert (H1 : outcome (match timeout st with
                        | Some deadline => onTimeout deadline st
                        | None => st
                        end) = outcome st).
  { destruct (timeout st); [now apply settled_onTimeout | reflexivity]. }
  destruct (graceTimer _); [now rewrite outcome_onGraceTimer | exact H1].
Qed.

(** X1: the first settlement is final.  Once the promise of a run is
    resolved or rejected, no later event of the child and no timer
    changes it: a run rejected as timed out stays so when the child
    closes with code 0 afterwards, and a run that has closed is not
    turned into a timeout. *)
Theorem first_settlement_is_final (tr : trace) (st : state) :
  outcome st <> Unsettled ->
  outcome (drain (run indesignPath tr st)) = outcome st.
Proof.
  intros Hs. rewrite settled_drain; rewrite settled_run; congruence.
Qed.

Lemma signalling_start (spawned : bool) : signalling (start spawned).
Proof.
  unfold signalling, start. cbn.
  split; [intros _; auto|]. split; [auto | congruence].
Qed.

Lemma signalling_onTimeout (now : Z) (st : state) :
  signalling st -> timeout st <> None -> signalling (onTimeout now st).
Proof.
  open_state st. intros (Harmed & Hsent & Hgrace) Htmo.
  destruct (Harmed Htmo) as (-> & -> & Hres).
  destruct res; cbn.
  - split; [congruence|]. split; [auto | congruence].
  - rewrite (Hres eq_refl). destruct alv; cbn.
    + split; [congruence|]. split; [right; auto | auto].
    + split; [congruence|]. split; [auto | auto].
Qed.

Lemma signalling_onGraceTimer (st : state) :
  signalling st -> graceTimer st <> None -> signalling (onGraceTimer st).
Proof.
  open_state st. intros (Harmed & Hsent & Hgrace) Hgrc.
  assert (Htmo : tmo = None).
  { destruct tmo; [|reflexivity].
    destruct Harmed as (_ & Hg & _); congruence. }
  subst tmo.
  destruct (Hgrace Hgrc) as [-> | ->]; cbn.
  - split; [congruence|]. split; [exact Hsent | congruence].
  - destruct kil; cbn; (split; [congruence|]; split; [exact Hsent | congruence]).
Qed.

Lemma signalling_advance (now : Z) (st : state) :
  signalling st -> signalling (advance now st).
Proof.
  intros Hs. unfold advance.
  assert (H1 : signalling (fireTimeout now st)).
  { unfold fireTimeout. destruct (timeout st) as [d|] eqn:Ht; [|exact Hs].
    destruct (d <=? now); [|exact Hs].
    apply signalling_onTimeout; [exact Hs | congruence]. }
  revert H1. generalize (fireTimeout now st). intros st1 H1.
  unfold fireGraceTimer. destruct (graceTimer st1) as [g|] eqn:Hg; [|exact H1].
  destruct (g <=? now); [|exact H1].
  apply signalling_onGraceTimer; [exact H1 | congruence].
Qed.

Lemma signalling_handle (ev : childEvent) (st : state) :
  signalling st -> signalling (handle indesignPath ev st).
Proof.
  destruct ev; unfold handle; open_state st;
    intros (Harmed & Hsent & Hgrace).
  - split; [exact Harmed|]. split; [exact Hsent | exact Hgrace].
  - split; [exact Harmed|]. split; [exact Hsent | exact Hgrace].
  - destruct oc; cbn;
      (split; [congruence|]; split; [|exact Hgrace]);
      (destruct Hsent as [Hs0 | (Hs1 & Hs2 & Hs3)];
       [left; exact Hs0 | first [discriminate Hs2 | right; auto]]).
  - split; [exact Harmed|]. split; [exact Hsent | auto].
  - destruct (_ || _); destruct oc; cbn;
      (split; [congruence|]; split; [|auto]);
      (destruct Hsent as [Hs0 | (Hs1 & Hs2 & Hs3)];
       [left; exact Hs0 | first [discriminate Hs2 | right; auto]]).
Qed.

Lemma signalling_run (tr : trace) (st : state) :
  signalling st -> signalling (run indesignPath tr st).
Proof.
  revert st. induction tr as [|tev tr IH]; intros st Hs; [exact Hs|].
  apply IH. apply signalling_handle, signalling_advance, Hs.
Qed.

Lemma signalling_drain (st : state) : signalling st -> signalling (drain st).
Proof.
  intros Hs. unfold drain.
  assert (H1 : signalling match timeout st with
                          | Some deadline => onTimeout deadline st
                          | None => st
                          end).
  { destruct (timeout st) eqn:Ht; [|exact Hs].
    apply signalling_onTimeout; [exact Hs | congruence]. }
  revert H1.
  generalize (match timeout st with
              | Some deadline => onTimeout deadline st
              | None => st
              end).
  intros st1 H1. destruct (graceTimer st1) eqn:Hg; [|exact H1].
  apply signalling_onGraceTimer; [exact H1 | congruence].
Qed.

(** X2: whatever the child does, the runner sends it at most one
    signal, a [SIGTERM], and only in a run that it reports as timed out:
    a run that is resolved, or rejected for its exit code, its error
    marker or a launch error, has sent no signal at all. *)
Theorem signal_only_on_timeout (b : behaviour) :
  (signals (execute indesignPath b) = []
   \/ signals (execute indesignPath b) = [SIGTERM])
  /\ (signals (execute indesignPath b) <> [] ->
      outcome (execute indesignPath b) = Rejected timeoutError).
Proof.
  unfold execute.
  pose proof (signalling_drain _
                (signalling_run (events b) _ (signalling_start (spawned b))))
    as (_ & Hsent & _).
  destruct Hsent as [Hnone | (Hterm & Hout & _)].
  - split; [left; exact Hnone | congruence].
  - split; [right; exact Hterm | intros _; exact Hout].
Qed.

(** The buffers only grow, by the chunks of the trace. *)
Lemma buffers_advance (now : Z) (st : state) :
  stdout (advance now st) = stdout st /\ stderr (advance now st) = stderr st.
Proof.
  unfold advance, fireGraceTimer, fireTimeout.
  assert (H1 : forall d, stdout (onTimeout d st) = stdout st
                         /\ stderr (onTimeout d st) = stderr st).
  { intros d. open_state st. destruct res, alv, oc; cbn; auto. }
  assert (H2 : forall st0, stdout (onGraceTimer st0) = stdout st0
                           /\ stderr (onGraceTimer st0) = stderr st0).
  { intros st0. open_state st0. destruct kil, alv; cbn; auto. }
  destruct (timeout st) as [d|]; [destruct (d <=? now)|];
    (destruct (graceTimer _) as [g|]; [destruct (g <=? now)|]);
    try rewrite (proj1 (H2 _)), (proj2 (H2 _)); auto.
Qed.

Lemma append_assoc (a b c : string) : (a +:+ b) +:+ c = a +:+ (b +:+ c).
Proof.
  induction a as [|x a IH]; [reflexivity|].
  change (String x a +:+ b) with (String x (a +:+ b)).
  change (String x (a +:+ b) +:+ c) with (String x ((a +:+ b) +:+ c)).
  now rewrite IH.
Qed.

Lemma append_empty_r (a : string) : a +:+ EmptyString = a.
Proof.
  induction a as [|x a IH]; [reflexivity|].
  change (String x a +:+ EmptyString) with (String x (a +:+ EmptyString)).
  now rewrite IH.
Qed.

Lemma buffers_handle (ev : childEvent) (st : state) :
  stdout (handle indesignPath ev st)
  = stdout st +:+ stdoutOf [(0, ev)]
  /\ stderr (handle indesignPath ev st)
     = stderr st +:+ stderrOf [(0, ev)].
Proof.
  destruct ev; unfold handle; open_state st;
    cbn [stdoutOf stderrOf]; rewrite ?append_empty_r; auto.
  - destruct oc; cbn; auto.
  - destruct (_ || _); destruct oc; cbn; auto.
Qed.

Lemma outputOf_cons (tev : Z * childEvent) (tr : trace) :
  stdoutOf (tev :: tr) = stdoutOf [(0, tev.2)] +:+ stdoutOf tr
  /\ stderrOf (tev :: tr) = stderrOf [(0, tev.2)] +:+ stderrOf tr.
Proof.
  destruct tev as [t [d|d|e| |c]]; cbn [stdoutOf stderrOf snd];
    rewrite ?append_empty_r; auto.
Qed.

Lemma buffers_run (tr : trace) (st : state) :
  stdout (run indesignPath tr st) = stdout st +:+ stdoutOf tr
  /\ stderr (run indesignPath tr st) = stderr st +:+ stderrOf tr.
Proof.
  revert st. induction tr as [|tev tr IH]; intros st.
  - cbn [run fold_left stdoutOf stderrOf]. now rewrite !append_empty_r.
  - change (run indesignPath (tev :: tr) st)
      with (run indesignPath tr (step indesignPath st tev)).
    destruct (IH (step indesignPath st tev)) as [-> ->]. unfold step.
    destruct (buffers_handle tev.2 (advance tev.1 st)) as [-> ->].
    destruct (buffers_advance tev.1 st) as [-> ->].
    destruct (outputOf_cons tev tr) as [-> ->].
    now rewrite !append_assoc.
Qed.

(** Output delivered before the deadline leaves the run waiting, with
    the timer armed and nothing sent. *)
Lemma run_output_in_time (tr : trace) (st : state) :
  outputInTime tr = true ->
  outcome st = Unsettled -> timeout st = Some timeoutMs ->
  graceTimer st = None ->
  outcome (run indesignPath tr st) = Unsettled
  /\ timeout (run indesignPath tr st) = Some timeoutMs
  /\ graceTimer (run indesignPath tr st) = None.
Proof.
  revert st. induction tr as [|[t ev] tr IH]; intros st Hin Hun Htmo Hgrc;
    [auto|].
  cbn [outputInTime forallb fst snd] in Hin.
  apply andb_true_iff in Hin as [Hev Htr].
  apply andb_true_iff in Hev as [Hout Ht]. apply Z.ltb_lt in Ht.
  change (run indesignPath ((t, ev) :: tr) st)
    with (run indesignPath tr (step indesignPath st (t, ev))).
  assert (Hadv : advance t st = st).
  { unfold advance, fireTimeout, fireGraceTimer. rewrite Htmo.
    replace (timeoutMs <=? t) with false by (symmetry; apply Z.leb_gt; lia).
    now rewrite Hgrc. }
  apply IH; [exact Htr | | |]; unfold step; cbn [fst snd]; rewrite Hadv;
    destruct ev; try discriminate Hout; unfold handle; open_state st;
    assumption.
Qed.

(** X3: a child whose output arrives, and whose streams close, before
    the five-minute deadline is judged on the whole of its output: the
    chunks of stderr are joined in order of arrival before the filter and
    the marker test, so a marker split over two chunks is seen, and a
    success resolves with all of stdout.  No signal is sent. *)
Theorem timely_close_is_judged_on_whole_output (spawned : bool)
  (pre later : trace) (t : Z) (exitCode : option Z) :
  outputInTime pre = true -> t < timeoutMs ->
  let st := execute indesignPath
              (mkBehaviour spawned (pre ++ (t, Close exitCode) :: later)%list) in
  let filtered := filteredStderr (stderrOf pre) in
  outcome st
  = (if negb (bool_decide (exitCode = Some 0)) || JS.includes "ERROR:" filtered
     then Rejected (executionError exitCode filtered (stdoutOf pre))
     else Resolved (stdoutOf pre))
  /\ signals st = [].
Proof.
  intros Hin Ht st filtered.
  set (st0 := run indesignPath pre (start spawned)).
  destruct (run_output_in_time pre (start spawned) Hin eq_refl eq_refl eq_refl)
    as (Hun & Htmo & Hgrc). fold st0 in Hun, Htmo, Hgrc.
  destruct (buffers_run pre (start spawned)) as [Hout Herr].
  fold st0 in Hout, Herr. cbn [start stdout stderr] in Hout, Herr.
  change (EmptyString +:+ stdoutOf pre) with (stdoutOf pre) in Hout.
  change (EmptyString +:+ stderrOf pre) with (stderrOf pre) in Herr.
  set (st1 := step indesignPath st0 (t, Close exitCode)).
  assert (Hst : st = drain (run indesignPath later st1)).
  { subst st st1 st0. unfold execute, run. cbn [Runner.events Runner.spawned].
    now rewrite fold_left_app. }
  assert (Hadv : advance t st0 = st0).
  { unfold advance, fireTimeout, fireGraceTimer. rewrite Htmo.
    replace (timeoutMs <=? t) with false by (symmetry; apply Z.leb_gt; lia).
    now rewrite Hgrc. }
  assert (Hcls : outcome st1
                 = (if negb (bool_decide (exitCode = Some 0))
                       || JS.includes "ERROR:" filtered
                    then Rejected (executionError exitCode filtered
                                                  (stdoutOf pre))
                    else Resolved (stdoutOf pre))).
  { subst st1. unfold step. cbn [fst snd]. rewrite Hadv.
    unfold handle, onClose.
    cbn [stderr stdout ended clearTimeout setResolved].
    rewrite Herr, Hout. fold filtered.
    destruct (negb _ || _); unfold reject, resolve;
      apply settle_unsettled; exact Hun. }
  assert (Hsettled : outcome st1 <> Unsettled).
  { rewrite Hcls. destruct (negb _ || _); discriminate. }
  assert (Hfinal : outcome st = outcome st1).
  { rewrite Hst, settled_drain; rewrite settled_run; congruence. }
  split.
  - rewrite Hfinal. exact Hcls.
  - pose proof (signalling_drain _
                  (signalling_run (pre ++ (t, Close exitCode) :: later)%list _
                     (signalling_start spawned))) as (_ & Hsent & _).
    change (drain (run indesignPath (pre ++ (t, Close exitCode) :: later)%list
                       (start spawned))) with st in Hsent.
    destruct Hsent as [Hnone | (_ & Hto & _)]; [exact Hnone|].
    rewrite Hfinal, Hcls in Hto.
    destruct (negb _ || _); [|discriminate Hto].
    exfalso. injection Hto as Hmsg. discriminate Hmsg.
Qed.

(** X4: the deadline is hard.  When nothing but output has arrived
    before five minutes have passed, the run is rejected with the timeout
    error, whatever the child does from then on: a close that arrives at
    after the deadline, even with code 0, comes too late. *)
Theorem deadline_is_hard (spawned : bool) (pre later : trace) :
  outputInTime pre = true ->
  match later with
  | [] => True
  | (t, _) :: _ => timeoutMs < t
  end ->
  outcome (execute indesignPath (mkBehaviour spawned (pre ++ later)%list))
  = Rejected timeoutError.
Proof.
  intros Hin Hlate. unfold execute, run. cbn [Runner.events Runner.spawned].
  rewrite fold_left_app. fold (run indesignPath pre (start spawned)).
  set (st0 := run indesignPath pre (start spawned)).
  destruct (run_output_in_time pre (start spawned) Hin eq_refl eq_refl eq_refl)
    as (Hun & Htmo & Hgrc). fold st0 in Hun, Htmo, Hgrc.
  assert (Hres : isResolved st0 = false).
  { pose proof (waiting_run indesignPath pre _ (waiting_start spawned)) as Hw.
    fold st0 in Hw. exact (proj1 (Hw Hun)). }
  assert (Hfire : forall d, outcome (onTimeout d st0) = Rejected timeoutError).
  { intros d. clear Hlate. revert Hun Hres. generalize st0. intros st Hun Hres.
    open_state st. subst res oc. destruct alv; reflexivity. }
  destruct later as [|[t ev] rest].
  - cbn [fold_left]. unfold drain. rewrite Htmo.
    destruct (graceTimer (onTimeout timeoutMs st0));
      [rewrite outcome_onGraceTimer|]; apply Hfire.
  - fold (run indesignPath ((t, ev) :: rest) st0).
    change (run indesignPath ((t, ev) :: rest) st0)
      with (run indesignPath rest (step indesignPath st0 (t, ev))).
    assert (Hadv : outcome (advance t st0) = Rejected timeoutError).
    { unfold advance, fireTimeout. rewrite Htmo.
      replace (timeoutMs <=? t) with true by (symmetry; apply Z.leb_le; lia).
      unfold fireGraceTimer.
      destruct (graceTimer (onTimeout timeoutMs st0)) as [g|];
        [destruct (g <=? t); [rewrite outcome_onGraceTimer|]|]; apply Hfire. }
    assert (Hstep : outcome (step indesignPath st0 (t, ev))
                    = Rejected timeoutError).
    { unfold step. cbn [fst snd]. rewrite settled_handle; rewrite Hadv;
        [reflexivity | discriminate]. }
    rewrite settled_drain; rewrite settled_run; rewrite Hstep;
      [reflexivity | discriminate | discriminate | discriminate].
Qed.

End RunnerCoverage.

Section RunnerCoverageCases.

Import Runner.

Lemma first_settlement_is_final_witness :
  outcome (advance timeoutMs (start true)) <> Unsettled
  /\ outcome (drain (run "osascript" [(timeoutMs + 2000, Close (Some 0))]
                         (advance timeoutMs (start true))))
     = Rejected timeoutError.
Proof.
  assert (Hs : outcome (advance timeoutMs (start true)) <> Unsettled)
    by (vm_compute; discriminate).
  split; [exact Hs|].
  exact (eq_trans
           (first_settlement_is_final "osascript"
              [(timeoutMs + 2000, Close (Some 0))]
              (advance timeoutMs (start true)) Hs)
           eq_refl).
Defined.

Lemma timely_close_is_judged_on_whole_output_witness :
  outcome (execute "osascript"
             (mkBehaviour true
                [(100, StdoutData "Starting"); (200, StderrData "ERR");
                 (300, StderrData "OR: export failed"); (400, Exit);
                 (500, Close (Some 0)); (600, StdoutData "late")]))
  = Rejected (newError "InDesign script execution failed: ERROR: export failed").
Proof.
  refine (eq_trans
            (proj1 (timely_close_is_judged_on_whole_output "osascript" true
                      [(100, StdoutData "Starting"); (200, StderrData "ERR");
                       (300, StderrData "OR: export failed"); (400, Exit)]
                      [(600, StdoutData "late")] 500 (Some 0) _ _))
            _).
  - reflexivity.
  - reflexivity.
  - vm_compute. reflexivity.
Defined.

Lemma deadline_is_hard_witness :
  outcome (execute "osascript"
             (mkBehaviour true
                [(100, StdoutData "Starting");
                 (timeoutMs + 1, Close (Some 0))]))
  = Rejected timeoutError.
Proof.
  apply (deadline_is_hard "osascript" true [(100, StdoutData "Starting")]
                          [(timeoutMs + 1, Close (Some 0))]).
  - reflexivity.
  - reflexivity.
Defined.

End RunnerCoverageCases.

(** ** Cleanup routines and the probe *)

Section CleanupCoverage.





End CleanupCoverage.

(** ** The probe and the conversion *)

Section ConversionCoverage.

Variable host : Host.

Lemma spawnArguments_unsupported (configured : option string) (p : string) :
  platform host <> "darwin" -> platform host <> "win32" ->
  spawnArguments (platform host) configured p = None.
Proof.
  intros Hmac Hwin. unfold spawnArguments.
  apply String.eqb_neq in Hwin, Hmac.
  destruct (resolveIndesignPath (platform host) configured); [|reflexivity].
  now rewrite Hmac, Hwin.
Qed.

(** X7: a positive probe does not mean that a conversion can start.
    On a platform other than macOS and Windows, with the setting naming
    a path that exists, [testInDesignConnection] answers true and leaves
    the file system as it is, while every run of a script on that host
    is rejected as unsupported before anything is spawned. *)
Theorem probe_true_yet_unsupported (p : string) (s : Fs.t) :
  platform host <> "darwin" -> platform host <> "win32" ->
  configIndesignAppPath (INDESIGN_APP_PATH host) = Some p ->
  is_Some (s !! p) ->
  testInDesignConnection host s = Return true s
  /\ (forall scriptPath s1,
         runInDesignWithScript host scriptPath s1 = Throw unsupportedError s1).
Proof.
  intros Hmac Hwin Hconf [n Hp]. split.
  - unfold testInDesignConnection, tryCatch, bind.
    rewrite (resolveIndesignPath_configured _ _ _ Hconf).
    now rewrite (checkFileExists_present p s n Hp).
  - intros scriptPath s1. unfold runInDesignWithScript.
    now rewrite (spawnArguments_unsupported _ _ Hmac Hwin).
Qed.

(** X8: the probe never throws and never changes the file system; it
    answers true exactly when the path it resolves, the configured one or
    else the default of the platform, exists. *)
Theorem probe_reports_existence (s : Fs.t) :
  exists answer,
    testInDesignConnection host s = Return answer s
    /\ (answer = true <->
        exists p,
          resolveIndesignPath (platform host)
            (configIndesignAppPath (INDESIGN_APP_PATH host)) = Some p
          /\ is_Some (s !! p)).
Proof.
  unfold testInDesignConnection, tryCatch, bind.
  destruct (resolveIndesignPath _ _) as [p|].
  - rewrite checkFileExists_spec. eexists. split; [reflexivity|].
    rewrite bool_decide_eq_true. split.
    + intros Hp. exists p. auto.
    + intros (q & [= <-] & Hq). exact Hq.
  - exists false. split; [reflexivity|]. split; [discriminate|].
    intros (q & Hq & _). discriminate Hq.
Qed.

(** X9: a missing input is reported before anything is done: the
    conversion throws "Failed to convert InDesign to PDF: InDesign file
    not found: " with the path, no directory is made, no script is
    written, and the file system is as it was. *)
Theorem missing_input_changes_nothing (i o : string) (s : Fs.t) :
  s !! i = None ->
  convertInDesignToPDF host i o s
  = Throw (newError ("Failed to convert InDesign to PDF: "
                     +:+ "InDesign file not found: " +:+ i)) s.
Proof.
  intros Hi. unfold convertInDesignToPDF, tryCatch, convertBody, bind.
  now rewrite (checkFileExists_absent i s Hi).
Qed.






End ConversionCoverage.

(** ** Concurrent deletion *)

Section ConcurrentDeletion.


























End ConcurrentDeletion.

(** ** The conversion that never settles, and the search order *)

Section EdgeCases.


Lemma scanEntries_app (dirPath : string) (before after : list entry) :
  scanEntries dirPath (before ++ after)%list
  = match scanEntries dirPath before with
    | Ok None => scanEntries dirPath after
    | found => found
    end.
Proof.
  induction before as [|x before IH]; [reflexivity|].
  cbn [app scanEntries]. destruct (visitEntry dirPath x) as [[p|]|err];
    [reflexivity | exact IH | reflexivity].
Qed.

(** X13: the search stops at the first match and depends on the order
    of the enumeration.  A document that follows entries without a match
    is returned whatever comes after it, so a directory that cannot be
    read does no harm once the document has been met; the same directory
    met first makes the whole search fail, with the text of the cause
    behind one "Error searching for InDesign file: " for each level,
    unless it bears a system name, in which case it is passed over. *)
Theorem search_stops_at_first_match (dirPath name : string)
  (before after : list entry) :
  forallb readable before = true ->
  firstInDesignFile dirPath before = None ->
  hasInDesignExtension name = true ->
  findInDesignFile dirPath (inr (before ++ FileEntry name :: after)%list)
  = Ok (Some (Path.join dirPath name))
  /\ (forall blocked error,
         findInDesignFile dirPath
           (inr (UnreadableDirEntry blocked error :: FileEntry name :: after))
         = if isSystemDirectory blocked
           then Ok (Some (Path.join dirPath name))
           else Err (searchError (searchError error))).
Proof.
  intros Hread Hnone Hname.
  assert (Hfile : forall rest,
             scanEntries dirPath (FileEntry name :: rest)
             = Ok (Some (Path.join dirPath name))).
  { intros rest. cbn [scanEntries visitEntry entryName]. now rewrite Hname. }
  split.
  - unfold findInDesignFile. rewrite scanEntries_app.
    rewrite (scanEntries_first before); [|apply Forall_forall; intros x _;
                                           apply visitEntry_first | exact Hread].
    rewrite Hnone. now rewrite Hfile.
  - intros blocked error. unfold findInDesignFile.
    change (scanEntries dirPath
              (UnreadableDirEntry blocked error :: FileEntry name :: after))
      with (match visitEntry dirPath (UnreadableDirEntry blocked error) with
            | Ok (Some p) => Ok (Some p)
            | Ok None => scanEntries dirPath (FileEntry name :: after)
            | Err err => Err err
            end).
    rewrite Hfile. cbn [visitEntry].
    destruct (isSystemDirectory blocked); reflexivity.
Qed.

End EdgeCases.

(** ** The upload route *)

Section UploadRoute.

Variable host : Host.
Variable tempExtractPath : string.











End UploadRoute.

(** ** Names of uploads and downloads *)

Section Names.

Import Path.

Lemma get_lookup (s : string) (k : nat) :
  String.get k s = list_ascii_of_string s !! k.
Proof.
  revert k. induction s as [|c s IH]; intros [|k]; cbn; auto.
Qed.

(** Once the comparison with the suffix is over, characters other than
    [/] leave the scan state of [basename] as it is. *)
Lemma basename_loop_rest (suffix : string) (l : list ascii) :
  forallb (fun c => negb (Ascii.eqb c JS.slash)) l = true ->
  forall i st,
    b_extIdx st = -1 -> b_firstNonSlashEnd st <> -1 ->
    basename_suffix_loop suffix l i st = st.
Proof.
  induction l as [|c l IH]; intros Hplain i st Hext Hfne; [reflexivity|].
  cbn [forallb] in Hplain. apply andb_true_iff in Hplain as [Hc Hl].
  apply negb_true_iff in Hc. cbn [basename_suffix_loop]. rewrite Hc.
  apply Z.eqb_neq in Hfne. rewrite Hfne, Hext. cbn [Z.leb Z.compare].
  apply Z.eqb_neq in Hfne. now apply IH.
Qed.

(** The comparison of the end of the name with the suffix, from the
    last character backwards: [r] holds the characters of the name still
    to compare and [rl] those of the suffix. *)
Lemma basename_loop_compare (suffix : string) (r : list ascii) :
  forall (rl tail rest : list ascii) (i : Z) (st : base_state),
    List.length r = List.length rl -> r <> [] ->
    Z.of_nat (List.length r) - 1 <= i ->
    list_ascii_of_string suffix = (rev rl ++ tail)%list ->
    forallb (fun c => negb (Ascii.eqb c JS.slash)) r = true ->
    forallb (fun c => negb (Ascii.eqb c JS.slash)) rest = true ->
    b_extIdx st = Z.of_nat (List.length rl) - 1 ->
    basename_suffix_loop suffix (r ++ rest) i st
    = BaseState (b_start st)
                (if bool_decide (r = rl)
                 then i - Z.of_nat (List.length r) + 1
                 else if b_firstNonSlashEnd st =? -1 then i + 1
                      else b_firstNonSlashEnd st)
                (if b_firstNonSlashEnd st =? -1 then false
                 else b_matchedSlash st)
                (-1)
                (if b_firstNonSlashEnd st =? -1 then i + 1
                 else b_firstNonSlashEnd st).
Proof.
  induction r as [|c r IH];
    intros rl tail rest i st Hlen Hne Hi Hsfx Hr Hrest Hext; [congruence|].
  destruct rl as [|d rl]; [discriminate Hlen|].
  injection Hlen as Hlen.
  cbn [forallb] in Hr. apply andb_true_iff in Hr as [Hc Hr].
  apply negb_true_iff in Hc.
  cbn [app basename_suffix_loop]. rewrite Hc.
  set (st1 := if b_firstNonSlashEnd st =? -1
              then BaseState (b_start st) (b_end st) false (b_extIdx st) (i + 1)
              else st).
  assert (Hst1 : b_start st1 = b_start st /\ b_extIdx st1 = b_extIdx st
                 /\ b_firstNonSlashEnd st1
                    = (if b_firstNonSlashEnd st =? -1 then i + 1
                       else b_firstNonSlashEnd st)
                 /\ b_matchedSlash st1
                    = (if b_firstNonSlashEnd st =? -1 then false
                       else b_matchedSlash st)
                 /\ b_firstNonSlashEnd st1 <> -1).
  { subst st1. destruct (b_firstNonSlashEnd st =? -1) eqn:H; cbn.
    - repeat split. cbn [List.length] in Hi. lia.
    - repeat split. now apply Z.eqb_neq. }
  destruct Hst1 as (Hstart & Hext1 & Hfne1 & Hms1 & Hset).
  rewrite <- Hfne1, <- Hms1, <- Hstart. clearbody st1.
  rewrite Hext1, Hext.
  assert (Hat : charAt (Z.of_nat (List.length (d :: rl)) - 1) suffix = Some d).
  { unfold charAt. rewrite get_lookup, Hsfx. cbn [List.length rev].
    replace (Z.to_nat (Z.of_nat (S (List.length rl)) - 1))
      with (List.length (rev rl)) by (rewrite length_rev; lia).
    rewrite <- app_assoc. cbn [app]. apply list_lookup_middle. reflexivity. }
  rewrite Hat.
  replace (0 <=? Z.of_nat (List.length (d :: rl)) - 1) with true
    by (symmetry; apply Z.leb_le; cbn [List.length]; lia).
  destruct (decide (c = d)) as [->|Hcd].
  - rewrite bool_decide_eq_true_2 by reflexivity.
    destruct r as [|c' r].
    + destruct rl; [|discriminate Hlen].
      cbn [List.length app].
      change (Z.of_nat 1 - 1 - 1) with (-1).
      change (-1 =? -1) with true. cbv iota.
      rewrite basename_loop_rest by (cbn; auto).
      rewrite bool_decide_eq_true_2 by reflexivity.
      f_equal. lia.
    + replace (Z.of_nat (List.length (d :: rl)) - 1 - 1 =? -1) with false
        by (symmetry; apply Z.eqb_neq; cbn [List.length] in *; lia).
      rewrite (IH rl (d :: tail) rest); cbn [b_start b_end b_matchedSlash
                                           b_extIdx b_firstNonSlashEnd];
        try assumption; try congruence.
      * apply Z.eqb_neq in Hset. rewrite Hset.
        f_equal. destruct (decide (c' :: r = rl)) as [Heq|Hneq].
        -- rewrite !bool_decide_eq_true_2 by congruence.
           cbn [List.length]. lia.
        -- rewrite !bool_decide_eq_false_2 by congruence. reflexivity.
      * cbn [List.length] in *. lia.
      * rewrite Hsfx. cbn [rev]. rewrite <- app_assoc. reflexivity.
      * cbn [List.length]. lia.
  - rewrite !bool_decide_eq_false_2 by congruence.
    rewrite basename_loop_rest; cbn; auto.
    rewrite forallb_app, Hr, Hrest. reflexivity.
Qed.

Lemma forallb_rev_true {A : Type} (f : A -> bool) (l : list A) :
  forallb f l = true -> forallb f (rev l) = true.
Proof.
  rewrite !forallb_forall. intros H x Hx. apply H. now apply in_rev.
Qed.

Lemma substring_prefix (a b : string) :
  String.substring 0 (String.length a) (a +:+ b) = a.
Proof.
  induction a as [|c a IH]; [destruct b; reflexivity|].
  change (String c a +:+ b) with (String c (a +:+ b)). cbn. now rewrite IH.
Qed.

Lemma string_of_list_ascii_inj (a b : string) :
  list_ascii_of_string a = list_ascii_of_string b -> a = b.
Proof.
  intros H. rewrite <- (string_of_list_ascii_of_string a),
    <- (string_of_list_ascii_of_string b). now rewrite H.
Qed.

(** [path.basename(name, suffix)] for a name [stem ++ ext] without
    [/], where [ext] is as long as the suffix: the suffix is removed
    when [ext] is the suffix character for character, and nothing is
    removed otherwise. *)
Lemma basename_of_stem_and_extension (stem ext suffix : string) :
  stem <> EmptyString ->
  forallb (fun c => negb (Ascii.eqb c JS.slash)) (list_ascii_of_string stem)
  = true ->
  forallb (fun c => negb (Ascii.eqb c JS.slash)) (list_ascii_of_string ext)
  = true ->
  suffix <> EmptyString ->
  String.length ext = String.length suffix ->
  basename (stem +:+ ext) suffix
  = if String.eqb ext suffix then stem else stem +:+ ext.
Proof.
  intros Hstem Hstem_plain Hext_plain Hsuffix Hlen.
  assert (Hstem_len : (0 < String.length stem)%nat)
    by (destruct stem; [congruence | cbn; lia]).
  assert (Hsuffix_len : (0 < String.length suffix)%nat)
    by (destruct suffix; [congruence | cbn; lia]).
  unfold basename.
  replace (0 <? String.length suffix)%nat with true
    by (symmetry; now apply Nat.ltb_lt).
  replace (String.length suffix <=? String.length (stem +:+ ext))%nat with true
    by (symmetry; apply Nat.leb_le; rewrite string_length_append; lia).
  cbn [andb].
  replace (String.eqb suffix (stem +:+ ext)) with false.
  2:{ symmetry. apply String.eqb_neq. intros Heq.
      apply (f_equal String.length) in Heq.
      rewrite string_length_append in Heq. lia. }
  rewrite list_ascii_of_string_append, rev_app_distr.
  rewrite (basename_loop_compare suffix _ (rev (list_ascii_of_string suffix))
             [] (rev (list_ascii_of_string stem))).
  - cbn [b_start b_end b_matchedSlash b_extIdx b_firstNonSlashEnd].
    change (-1 =? -1) with true. cbv iota.
    rewrite length_rev, <- string_length_list, string_length_append.
    destruct (String.eqb ext suffix) eqn:Heq.
    + apply String.eqb_eq in Heq. subst suffix.
      rewrite bool_decide_eq_true_2 by reflexivity.
      replace (0 =? Z.of_nat (String.length stem + String.length ext) - 1
                    - Z.of_nat (String.length ext) + 1) with false
        by (symmetry; apply Z.eqb_neq; lia).
      replace (Z.of_nat (String.length stem + String.length ext) - 1
               - Z.of_nat (String.length ext) + 1 =? -1) with false
        by (symmetry; apply Z.eqb_neq; lia).
      unfold JS.slice.
      replace (Z.to_nat (Z.of_nat (String.length stem + String.length ext) - 1
                         - Z.of_nat (String.length ext) + 1 - 0))
        with (String.length stem) by lia.
      apply substring_prefix.
    + apply String.eqb_neq in Heq.
      rewrite bool_decide_eq_false_2.
      2:{ intros Hrev. apply Heq, string_of_list_ascii_inj.
          rewrite <- (rev_involutive (list_ascii_of_string ext)), Hrev.
          apply rev_involutive. }
      replace (0 =? Z.of_nat (String.length stem + String.length ext) - 1 + 1)
        with false by (symmetry; apply Z.eqb_neq; lia).
      replace (Z.of_nat (String.length stem + String.length ext) - 1 + 1 =? -1)
        with false by (symmetry; apply Z.eqb_neq; lia).
      unfold JS.slice.
      replace (Z.to_nat (Z.of_nat (String.length stem + String.length ext)
                         - 1 + 1 - 0))
        with (String.length (stem +:+ ext))
        by (rewrite string_length_append; lia).
      apply substring_whole.
  - rewrite !length_rev, <- !string_length_list. exact Hlen.
  - intros Hnil. apply (f_equal (@List.length ascii)) in Hnil.
    rewrite length_rev, <- string_length_list in Hnil. cbn in Hnil. lia.
  - rewrite length_rev, <- string_length_list, string_length_append. lia.
  - rewrite rev_involutive, app_nil_r. reflexivity.
  - now apply forallb_rev_true.
  - now apply forallb_rev_true.
  - cbn [b_extIdx]. rewrite length_rev, <- string_length_list. reflexivity.
Qed.

(** The shape of an extension that the filter lets through. *)
Lemma capitalized_zip_shape (ext : string) :
  isCapitalizationOf ".zip" ext = true ->
  exists letters,
    ext = String JS.dot letters
    /\ letters <> EmptyString
    /\ forallb (fun c => negb (Ascii.eqb c JS.slash)
                         && negb (Ascii.eqb c JS.dot))
               (list_ascii_of_string letters) = true.
Proof.
  intros Hcap. destruct ext as [|b letters]; [discriminate Hcap|].
  exists letters.
  cbn [isCapitalizationOf] in Hcap.
  apply andb_true_iff in Hcap as [Hb Hrest].
  split; [|split].
  - f_equal. apply orb_true_iff in Hb as [Hb|Hb]; apply Ascii.eqb_eq in Hb;
      exact Hb.
  - destruct letters; [discriminate Hrest | congruence].
  - apply (capitalization_plain "zip" letters Hrest). reflexivity.
Qed.

Lemma capitalization_length (s x : string) :
  isCapitalizationOf s x = true -> String.length x = String.length s.
Proof.
  revert x. induction s as [|a s IH]; intros [|b x]; try discriminate;
    [reflexivity|].
  cbn [isCapitalizationOf String.length].
  intros [_ Hrest]%andb_true_iff. now rewrite (IH x Hrest).
Qed.

Lemma plain_has_no_slash (l : list ascii) :
  forallb (fun c => negb (Ascii.eqb c JS.slash) && negb (Ascii.eqb c JS.dot)) l
  = true ->
  forallb (fun c => negb (Ascii.eqb c JS.slash)) l = true.
Proof.
  rewrite !forallb_forall. intros H x Hx.
  specialize (H x Hx). now apply andb_true_iff in H as [H _].
Qed.

(** X18.  The upload filter lets through every name whose extension is
    [.zip] in any capitalization ([Job.zip], [Job.ZIP], [Job.Zip]), and
    the file is stored under the drawn identifier followed by the
    extension exactly as it was uploaded. *)
Theorem any_capitalization_of_zip_is_accepted (uuid stem ext : string) :
  stem <> EmptyString ->
  forallb (fun c => negb (Ascii.eqb c JS.slash)) (list_ascii_of_string stem)
  = true ->
  isCapitalizationOf ".zip" ext = true ->
  fileFilter (stem +:+ ext) = Ok tt
  /\ storedFilename uuid (stem +:+ ext) = uuid +:+ ext.
Proof.
  intros Hstem Hplain Hcap.
  destruct (capitalized_zip_shape ext Hcap) as (letters & -> & Hne & Hletters).
  unfold fileFilter, storedFilename.
  rewrite (extname_stem_dot_ext stem letters Hstem Hplain Hne Hletters).
  rewrite (toLowerCase_capitalization _ _ Hcap). split; reflexivity.
Qed.

(** X19.  The name offered for the download is the uploaded name with
    a final [.zip] replaced by [.pdf]; the comparison is exact, so an
    upload accepted with another capitalization of the extension keeps
    it: [Job.ZIP] is sent back as [Job.ZIP.pdf]. *)
Theorem download_name_strips_only_lowercase_zip (stem ext : string) :
  stem <> EmptyString ->
  forallb (fun c => negb (Ascii.eqb c JS.slash)) (list_ascii_of_string stem)
  = true ->
  isCapitalizationOf ".zip" ext = true ->
  fileFilter (stem +:+ ext) = Ok tt
  /\ Path.basename (stem +:+ ext) ".zip" +:+ ".pdf"
     = if String.eqb ext ".zip" then stem +:+ ".pdf"
       else (stem +:+ ext) +:+ ".pdf".
Proof.
  intros Hstem Hplain Hcap.
  destruct (capitalized_zip_shape ext Hcap) as (letters & Hshape & Hne & Hletters).
  split.
  - subst ext. unfold fileFilter.
    rewrite (extname_stem_dot_ext stem letters Hstem Hplain Hne Hletters).
    rewrite (toLowerCase_capitalization _ _ Hcap). reflexivity.
  - rewrite (basename_of_stem_and_extension stem ext ".zip" Hstem Hplain).
    + destruct (String.eqb ext ".zip"); reflexivity.
    + subst ext. cbn [list_ascii_of_string forallb].
      rewrite (plain_has_no_slash _ Hletters). reflexivity.
    + discriminate.
    + exact (capitalization_length _ _ Hcap).
Qed.

End Names.

Section NamesCases.

Lemma any_capitalization_of_zip_is_accepted_witness :
  fileFilter "Job.ZIP" = Ok tt
  /\ storedFilename "1b9d6bcd" "Job.ZIP" = "1b9d6bcd.ZIP".
Proof.
  apply (any_capitalization_of_zip_is_accepted "1b9d6bcd" "Job" ".ZIP");
    [discriminate | reflexivity | reflexivity].
Defined.

Lemma download_name_strips_only_lowercase_zip_witness :
  fileFilter "Job.ZIP" = Ok tt
  /\ Path.basename "Job.ZIP" ".zip" +:+ ".pdf" = "Job.ZIP.pdf".
Proof.
  apply (download_name_strips_only_lowercase_zip "Job" ".ZIP");
    [discriminate | reflexivity | reflexivity].
Defined.

End NamesCases.

(** ** The properties above on concrete hosts and requests *)

Section CoverageCases.

Lemma probe_true_yet_unsupported_witness :
  testInDesignConnection Cases.linuxHost Cases.linuxDisk
  = Return true Cases.linuxDisk
  /\ runInDesignWithScript Cases.linuxHost
       "/tmp/indesign_export_1730500000000.jsx" Cases.linuxDisk
     = Throw unsupportedError Cases.linuxDisk.
Proof.
  destruct (probe_true_yet_unsupported Cases.linuxHost
              "/opt/indesign/indesign" Cases.linuxDisk)
    as [Hprobe Hrun].
  - discriminate.
  - discriminate.
  - reflexivity.
  - eexists. vm_compute. reflexivity.
  - split; [exact Hprobe | apply Hrun].
Defined.

Lemma missing_input_changes_nothing_witness :
  convertInDesignToPDF Scenario.macHost "/work/in/missing.indd" "/work/out"
                       Scenario.disk
  = Throw (newError "Failed to convert InDesign to PDF: InDesign file not found: /work/in/missing.indd")
          Scenario.disk.
Proof.
  apply (missing_input_changes_nothing Scenario.macHost
           "/work/in/missing.indd" "/work/out" Scenario.disk).
  vm_compute. reflexivity.
Defined.



Lemma search_stops_at_first_match_witness :
  findInDesignFile "/extract/7c1e"
    (inr [FileEntry "readme.txt"; DirEntry "Links" [FileEntry "photo.png"];
          FileEntry "Brochure.INDD";
          UnreadableDirEntry "private" (newError "EACCES: permission denied")])
  = Ok (Some "/extract/7c1e/Brochure.INDD")
  /\ findInDesignFile "/extract/7c1e"
       (inr [UnreadableDirEntry "private"
               (newError "EACCES: permission denied");
             FileEntry "Brochure.INDD";
             UnreadableDirEntry "private"
               (newError "EACCES: permission denied")])
     = Err (newError "Error searching for InDesign file: Error searching for InDesign file: EACCES: permission denied").
Proof.
  destruct (search_stops_at_first_match "/extract/7c1e" "Brochure.INDD"
              [FileEntry "readme.txt"; DirEntry "Links" [FileEntry "photo.png"]]
              [UnreadableDirEntry "private"
                 (newError "EACCES: permission denied")])
    as [Hfound Hblocked].
  - reflexivity.
  - vm_compute. reflexivity.
  - reflexivity.
  - split; [exact Hfound|].
    exact (Hblocked "private" (newError "EACCES: permission denied")).
Defined.





End CoverageCases.
